(** * House price prediction notebook: cleaning, encoding, selection, training

    A shallow embedding of [house_price_pred.ipynb].  The notebook is one
    linear script over pandas data frames; every cell that the properties
    below talk about is transcribed as a function on an explicit frame value.

    Conventions of the embedding.
    - A data frame is the ordered list of its labelled columns; a column
      carries its pandas dtype ([object], [float64], [int64], [bool]).
    - A missing cell (NaN / None) is [None]; only [object] and [float64]
      columns can hold one, as in pandas.
    - [float64] values are read as exact rationals: rounding, infinities and
      overflow of IEEE arithmetic are not represented.
    - A Python exception is the outcome [Raise]; a situation for which the
      behaviour of pandas is not transcribed (a column label that occurs
      twice, an encoder applied to a column that is not of dtype [object])
      is the outcome [Outside].
    - The numerical work of the libraries (the importances of the forest, the
      cross-validation scores, the predictions) and the rows that
      [train_test_split] draws are parameters of the cells that use them.
    - A run of the notebook executes its cells from top to bottom and stops
      at the first exception. *)

From Stdlib Require Import ZArith QArith.
From stdpp Require Import base list strings pretty gmap sorting.

(** ** Outcomes of notebook cells *)

Inductive exn :=
| KeyError (label : string)
| ValueError
| TypeError
| NameError (name : string).

Inductive outcome (A : Type) :=
| Ret (a : A)
| Raise (e : exn)
| Outside.
Arguments Ret {A} a.
Arguments Raise {A} e.
Arguments Outside {A}.

#[global] Instance outcome_ret : MRet outcome := @Ret.
#[global] Instance outcome_bind : MBind outcome := λ A B f m,
  match m with Ret a => f a | Raise e => Raise e | Outside => Outside end.

(** [for x in xs: s = body(x, s)] *)
Fixpoint for_each {A S : Type} (xs : list A) (body : A → S → outcome S) (s : S)
  : outcome S :=
  match xs with
  | [] => Ret s
  | x :: xs' => s' ← body x s; for_each xs' body s'
  end.

(** [[f(x) for x in xs]] where [f] may raise. *)
Fixpoint map_out {A B : Type} (f : A → outcome B) (xs : list A) : outcome (list B) :=
  match xs with
  | [] => Ret []
  | x :: xs' => y ← f x; ys ← map_out f xs'; Ret (y :: ys)
  end.

(** ** Data frames *)

Inductive column :=
| ObjCol (vals : list (option string))
| FloatCol (vals : list (option Q))
| IntCol (vals : list Z)
| BoolCol (vals : list bool).

Abbreviation frame := (list (string * column)).

Definition names (df : frame) : list string := df.*1.

Definition col_len (c : column) : nat :=
  match c with
  | ObjCol vs => length vs
  | FloatCol vs => length vs
  | IntCol vs => length vs
  | BoolCol vs => length vs
  end.

Definition is_none {A} (o : option A) : bool :=
  match o with None => true | Some _ => false end.

(** [Series.isnull()] as the list of row flags. *)
Definition isnull (c : column) : list bool :=
  match c with
  | ObjCol vs => is_none <$> vs
  | FloatCol vs => is_none <$> vs
  | IntCol vs => (λ _, false) <$> vs
  | BoolCol vs => (λ _, false) <$> vs
  end.

Definition isnull_sum (c : column) : nat := length (filter Is_true (isnull c)).
Definition isnull_any (c : column) : bool := existsb id (isnull c).

(** [Series.isnull().mean()]: the fraction of missing cells, NaN ([None])
    for a column without rows. *)
Definition isnull_mean (c : column) : option Q :=
  match col_len c with
  | O => None
  | S n => Some (Z.of_nat (isnull_sum c) # Pos.of_succ_nat n)
  end.

(** A column without missing cell, and a frame of such columns. *)
Definition complete (c : column) : Prop := isnull_any c = false.
Definition no_missing (df : frame) : Prop := ∀ p, p ∈ df → complete p.2.

(** [df[label]].  A label that occurs twice makes pandas return a frame
    instead of a series; the notebook never meets that case. *)
Definition getcol (label : string) (df : frame) : outcome column :=
  match filter (λ p : string * column, p.1 = label) df with
  | [] => Raise (KeyError label)
  | [p] => Ret p.2
  | _ => Outside
  end.

(** [df[label] = c]: replaces the column in place, or appends a new one. *)
Definition setcol (label : string) (c : column) (df : frame) : frame :=
  if decide (label ∈ names df)
  then (λ p : string * column, if decide (p.1 = label) then (label, c) else p) <$> df
  else df ++ [(label, c)].

(** [df.drop(columns=labels)]: every column carrying one of the labels goes;
    a label that is not in the frame raises [KeyError]. *)
Definition drop_columns (labels : list string) (df : frame) : outcome frame :=
  match filter (λ l, l ∉ names df) labels with
  | l :: _ => Raise (KeyError l)
  | [] => Ret (filter (λ p : string * column, p.1 ∉ labels) df)
  end.

(** ** Cleaner *)

(** [threshold = 0.3].  What is compared with it are quotients of two row
    counts; for them the comparison of the doubles and the comparison of the
    exact values agree. *)
Definition threshold : Q := 3 # 10.

Definition Qgt_bool (q t : Q) : bool := negb (Qle_bool q t).

(** [s > t] on a series value; a comparison with NaN is [False]. *)
Definition gt (t : Q) (v : option Q) : bool :=
  match v with
  | Some q => Qgt_bool q t
  | None => false
  end.

(** [missing_percentages = df.isnull().mean()] *)
Definition missing_percentages (df : frame) : list (string * option Q) :=
  (λ p : string * column, (p.1, isnull_mean p.2)) <$> df.

(** [missing_percentages[missing_percentages > threshold].index] *)
Definition columns_to_drop (df : frame) : list string :=
  (filter (λ p : string * option Q, Is_true (gt threshold p.2))
          (missing_percentages df)).*1.

Definition is_object (c : column) : bool :=
  match c with ObjCol _ => true | _ => false end.
Definition is_number (c : column) : bool :=
  match c with FloatCol _ | IntCol _ => true | _ => false end.

(** [df.select_dtypes(include=['object']).columns] and
    [df.select_dtypes(include=[np.number]).columns] *)
Definition cat_columns (df : frame) : list string :=
  (filter (λ p : string * column, Is_true (is_object p.2)) df).*1.
Definition num_columns (df : frame) : list string :=
  (filter (λ p : string * column, Is_true (is_number p.2)) df).*1.

(** [[col for col in cols if df[col].isnull().any()]] *)
Fixpoint null_columns (cols : list string) (df : frame) : outcome (list string) :=
  match cols with
  | [] => Ret []
  | col :: cols' =>
      c ← getcol col df;
      rest ← null_columns cols' df;
      Ret (if isnull_any c then col :: rest else rest)
  end.

(** The categories of an object column: its distinct non-missing values in
    increasing order (what [np.unique] and [sorted(set(...))] give). *)
Definition present {A} (vs : list (option A)) : list A := omap id vs.
Definition levels (vs : list (option string)) : list string :=
  merge_sort String.le (remove_dups (present vs)).

Definition occurrences (v : string) (vs : list (option string)) : nat :=
  length (filter (λ o, o = Some v) vs).

(** The most frequent value, the smallest one among equally frequent values
    (scikit-learn's [_most_frequent]); [None] when every cell is missing. *)
Definition most_frequent (vs : list (option string)) : option string :=
  foldl (λ best v,
           match best with
           | None => Some v
           | Some b => if decide (occurrences b vs < occurrences v vs)
                       then Some v else Some b
           end) None (levels vs).

Definition fill {A} (v : A) (vs : list (option A)) : list (option A) :=
  (λ o, match o with None => Some v | Some x => Some x end) <$> vs.

(** [SimpleImputer(strategy="most_frequent").fit_transform(df[[column]]).ravel()]
    on an object column.  A column whose cells are all missing is removed
    from the imputer's output, so the assignment back into the frame fails
    on the length of the values. *)
Definition most_freq_imp (c : column) : outcome column :=
  match c with
  | ObjCol vs =>
      match most_frequent vs with
      | Some m => Ret (ObjCol (fill m vs))
      | None => Raise ValueError
      end
  | _ => Outside
  end.

Definition Qsum (qs : list Q) : Q := foldr Qplus 0%Q qs.

(** [Series.mean()] skips missing cells; NaN when nothing is left.  This is
    the exact mean: the double that pandas computes is its rounding. *)
Definition mean (vs : list (option Q)) : option Q :=
  match present vs with
  | [] => None
  | q :: qs => Some (Qred (Qsum (q :: qs) / inject_Z (Z.of_nat (length (q :: qs)))))
  end.

(** [df[column].fillna(df[column].mean(), inplace=True)].  The notebook
    relies on the series returned by [df[column]] sharing its data with the
    frame, so that the frame itself is filled.  Filling with NaN changes
    nothing. *)
Definition fillna_mean (c : column) : outcome column :=
  match c with
  | FloatCol vs =>
      match mean vs with
      | Some m => Ret (FloatCol (fill m vs))
      | None => Ret c
      end
  | IntCol _ => Ret c
  | _ => Outside
  end.

(** [df[label] = f(df[label])] *)
Definition update_column (f : column → outcome column) (label : string) (df : frame)
  : outcome frame :=
  c ← getcol label df; c' ← f c; Ret (setcol label c' df).

(** The cells of the notebook's "Data Cleaning" section, producing
    [df_dropped]. *)
Definition Cleaner (df : frame) : outcome frame :=
  df_dropped ← drop_columns (columns_to_drop df) df;
  df_dropped ← drop_columns ["Id"] df_dropped;
  cat_null_columns ← null_columns (cat_columns df_dropped) df_dropped;
  num_null_columns ← null_columns (num_columns df_dropped) df_dropped;
  df_dropped ← for_each cat_null_columns (update_column most_freq_imp) df_dropped;
  for_each num_null_columns (update_column fillna_mean) df_dropped.

(** ** Visualizer *)

(** [plt.subplot(10, 4, i + 1)] for the columns of one group in turn: the
    grid has 40 places, and a 41st plot is refused with [ValueError]. *)
Definition subplots (columns : list string) : outcome () :=
  if decide (length columns ≤ 40) then Ret () else Raise ValueError.

(** The plotting cells: histograms of [num_columns], bar charts of
    [cat_columns], a heat map, box plots of [num_columns].  Imputation
    changes no dtype, so that the two lists are those of the cleaned frame.
    What is drawn is library code, and the cells bind nothing that a later
    cell reads; plots of no data at all (a frame without rows, the heat map
    of no column) are not transcribed. *)
Definition Visualizer (df_dropped : frame) : outcome () :=
  if decide (Forall (λ p : string * column, 0 < col_len p.2) df_dropped
             ∧ num_columns df_dropped ≠ [])
  then
    _ ← subplots (num_columns df_dropped);
    _ ← subplots (cat_columns df_dropped);
    subplots (num_columns df_dropped)
  else Outside.

(** ** Encoder *)

(** The three hand-written column groups. *)
Definition ord_enc_cols : list string :=
  ["LotShape"; "ExterQual"; "ExterCond"; "BsmtQual"; "BsmtCond"; "BsmtExposure";
   "BsmtFinType1"; "BsmtFinType2"; "HeatingQC"; "KitchenQual";
   "GarageQual"; "GarageCond"].

Definition one_hot_enc_cols : list string :=
  ["MSZoning"; "Street"; "LandContour"; "Utilities";
   "LotConfig"; "LandSlope"; "Neighborhood"; "Condition1"; "Condition2";
   "BldgType"; "HouseStyle"; "RoofStyle"; "RoofMatl"; "Exterior1st";
   "Exterior2nd"; "Foundation"; "Heating"; "Electrical"; "Functional"; "GarageType";
   "GarageFinish"; "PavedDrive"; "SaleType"; "SaleCondition"].

Definition bin_enc_cols : list string := ["CentralAir"].

(** The integer code of a value: its position among the fitted categories.
    A value that was not seen when fitting raises [ValueError]. *)
Definition category_code (cats : list string) (v : string) : outcome nat :=
  match list_find (λ c, c = v) cats with
  | Some (i, _) => Ret i
  | None => Raise ValueError
  end.

(** [OrdinalEncoder().fit_transform(df[[col]])]: the codes as floats, a
    missing cell stays missing; fitting on no row at all is refused. *)
Definition ord_enc_fit_transform (c : column) : outcome column :=
  match c with
  | ObjCol [] => Raise ValueError
  | ObjCol vs =>
      codes ← map_out (λ o : option string,
                 match o with
                 | None => Ret None
                 | Some v => i ← category_code (levels vs) v;
                             Ret (Some (inject_Z (Z.of_nat i)))
                 end) vs;
      Ret (FloatCol codes)
  | _ => Outside
  end.

(** [LabelEncoder().fit_transform(df[col])]: the codes as integers.  The
    encoder takes a missing cell for one more class, which it puts after the
    sorted values. *)
Definition bin_enc_fit_transform (c : column) : outcome column :=
  match c with
  | ObjCol vs =>
      codes ← map_out (λ o : option string,
                 match o with
                 | None => Ret (Z.of_nat (length (levels vs)))
                 | Some v => i ← category_code (levels vs) v; Ret (Z.of_nat i)
                 end) vs;
      Ret (IntCol codes)
  | _ => Outside
  end.

(** The indicator columns that [pd.get_dummies] makes of one column: one
    boolean column per category, named [label_category]; a missing cell
    gives [False] in each of them. *)
Definition dummy_columns (label : string) (vs : list (option string)) : frame :=
  (λ cat, (label +:+ "_" +:+ cat,
           BoolCol ((λ o, bool_decide (o = Some cat)) <$> vs))) <$> levels vs.

(** [pd.get_dummies(df, columns=columns)]: the other columns first, then the
    indicator columns of each listed column in turn. *)
Definition get_dummies (columns : list string) (df : frame) : outcome frame :=
  encoded ← map_out (λ label,
               c ← getcol label df;
               match c with
               | ObjCol vs => Ret (dummy_columns label vs)
               | _ => Outside
               end) columns;
  rest ← drop_columns columns df;
  Ret (rest ++ concat encoded).

(** The conversion of a float to [int]: the fractional part is cut off. *)
Definition truncate (q : Q) : Z := Z.quot (Qnum q) (Z.pos (Qden q)).

(** [Series.astype(int)] column by column.  A missing cell cannot be cast;
    the cast of strings is not transcribed.  A float is cut to its integer
    part; that is the [int64] of numpy as long as it is below 2^63 in
    magnitude (beyond, numpy's result is the platform's, and the integer here
    is not it). *)
Definition astype_int_column (c : column) : outcome column :=
  match c with
  | IntCol vs => Ret (IntCol vs)
  | BoolCol vs => Ret (IntCol ((λ b : bool, if b then 1%Z else 0%Z) <$> vs))
  | FloatCol vs =>
      zs ← map_out (λ o : option Q,
              match o with
              | Some q => Ret (truncate q)
              | None => Raise ValueError
              end) vs;
      Ret (IntCol zs)
  | ObjCol _ => Outside
  end.

(** [df.astype(int)] *)
Definition astype_int (df : frame) : outcome frame :=
  map_out (λ p : string * column, c ← astype_int_column p.2; Ret (p.1, c)) df.

(** The cells of "Handling Categorical Variables (Encoding)", from
    [df_clean = df_dropped.copy()] to [df_encoded]. *)
Definition Encoder (df_dropped : frame) : outcome frame :=
  let df_clean := df_dropped in
  df_clean ← for_each ord_enc_cols (update_column ord_enc_fit_transform) df_clean;
  df_clean ← get_dummies one_hot_enc_cols df_clean;
  df_clean ← for_each bin_enc_cols (update_column bin_enc_fit_transform) df_clean;
  astype_int df_clean.

(** ** Feature Selector *)

(** The literal [0.001] is the double 1152921504606847 / 2^60, a little above
    one thousandth; the importances are compared with it exactly. *)
Definition importance_threshold : Q := 1152921504606847 # 1152921504606846976.

(** [df[labels]] for a list of labels. *)
Definition select_columns (labels : list string) (df : frame) : outcome frame :=
  map_out (λ label, c ← getcol label df; Ret (label, c)) labels.

(** [Series.sort_values(ascending=False)].  In which order pandas leaves
    features of equal importance is its sorting routine's affair; here they
    keep the order they had.  The properties below do not depend on it. *)
Definition sort_values (s : list (string * Q)) : list (string * Q) :=
  merge_sort (λ a b : string * Q, Is_true (Qle_bool b.2 a.2)) s.

Section FeatureSelector.
(** [RandomForestRegressor(random_state=seed).fit(X, y).feature_importances_]
    in the run under consideration: the forest is library code. *)
Variable forest_importances : Z → frame → column → outcome (list Q).

(** [pd.Series(importance, index=X.columns).sort_values(ascending=False)] *)
Definition feature_importance (df_encoded : frame) : outcome (list (string * Q)) :=
  X ← drop_columns ["SalePrice"] df_encoded;
  y ← getcol "SalePrice" df_encoded;
  importance ← forest_importances 1 X y;
  if decide (length importance = length (names X))
  then Ret (sort_values (zip (names X) importance))
  else Raise ValueError.

(** [feature_importance[feature_importance > 0.001].index] *)
Definition selected_features (df_encoded : frame) : outcome (list string) :=
  fi ← feature_importance df_encoded;
  Ret (filter (λ p : string * Q, Is_true (Qgt_bool p.2 importance_threshold)) fi).*1.

(** [pd.concat([df_encoded[selected_features], df_encoded[['SalePrice']]], axis=1)] *)
Definition FeatureSelector (df_encoded : frame) : outcome frame :=
  selected ← selected_features df_encoded;
  features ← select_columns selected df_encoded;
  target ← select_columns ["SalePrice"] df_encoded;
  Ret (features ++ target).
End FeatureSelector.

(** Two runs of the selection cell.  The forest draws its bootstrap samples
    and feature subsets from a random generator.  Without [random_state] that
    is numpy's global generator, whose state differs from one run to the
    next; with an integer [random_state] the forest seeds a generator of its
    own.  [forest_fit rs X y r]: a fit of [RandomForestRegressor(random_state=rs)]
    on [X] and [y] can give [r] as its importances. *)
Section Reproducibility.
Variable forest_fit : option Z → frame → column → outcome (list Q) → Prop.

(** A run of the cell: its forest is constructed with [random_state=1], and
    what it gives is what a fit with that seed can give. *)
Definition selection_run (df_encoded : frame) (sel : outcome (list string)) : Prop :=
  ∃ forest : Z → frame → column → outcome (list Q),
    (∀ seed X y, forest_fit (Some seed) X y (forest seed X y))
    ∧ sel = selected_features forest df_encoded.
End Reproducibility.

(** ** Splitting *)

Record split := Split {
  X_train : frame; X_test : frame; y_train : column; y_test : column }.

(** What [train_test_split] draws from the global random generator: the row
    positions of the two parts. *)
Record draw := Draw { ind_train : list nat; ind_test : list nat }.

Definition take {A} (idx : list nat) (vs : list A) : outcome (list A) :=
  map_out (λ i, match vs !! i with Some v => Ret v | None => Outside end) idx.

Definition take_rows (idx : list nat) (c : column) : outcome column :=
  match c with
  | ObjCol vs => vs' ← take idx vs; Ret (ObjCol vs')
  | FloatCol vs => vs' ← take idx vs; Ret (FloatCol vs')
  | IntCol vs => vs' ← take idx vs; Ret (IntCol vs')
  | BoolCol vs => vs' ← take idx vs; Ret (BoolCol vs')
  end.

Definition take_frame_rows (idx : list nat) (df : frame) : outcome frame :=
  map_out (λ p : string * column, c ← take_rows idx p.2; Ret (p.1, c)) df.

Definition split_dataset (df : frame) (target_var : string) (d : draw) : outcome split :=
  features ← drop_columns [target_var] df;
  target ← getcol target_var df;
  X_train ← take_frame_rows (ind_train d) features;
  X_test ← take_frame_rows (ind_test d) features;
  y_train ← take_rows (ind_train d) target;
  y_test ← take_rows (ind_test d) target;
  Ret (Split X_train X_test y_train y_test).

(** ** Trainer *)

Inductive pyval :=
| PInt (z : Z)
| PFloat (q : Q)
| PStr (s : string)
| PIndices (l : list nat).

Inductive family :=
| LogisticRegression
| RandomForestRegressor
| XGBRegressor
| CatBoostRegressor.

(** An estimator object: its class and the keyword arguments it was
    constructed with. *)
Record estimator := Estimator { est_family : family; est_kwargs : gmap string pyval }.

(** [estimator.fit(X, y)]: the fitted model remembers what it was fitted on.
    The numerical training itself is library code, and so are the reasons
    for which it can fail. *)
Record fitted := Fit { fit_estimator : estimator; fit_X : frame; fit_y : column }.

Abbreviation param_grid := (list (string * list pyval)).

Record grid_search := GridSearchCV {
  gs_estimator : estimator; gs_param_grid : param_grid;
  gs_cv : nat; gs_scoring : option string }.

(** [ParameterGrid]: keys in sorted order, every combination of values. *)
Fixpoint combinations (items : param_grid) : list (gmap string pyval) :=
  match items with
  | [] => [∅]
  | (k, vs) :: rest => v ← vs; m ← combinations rest; [<[k:=v]> m]
  end.

Definition ParameterGrid (g : param_grid) : list (gmap string pyval) :=
  combinations (merge_sort (λ a b : string * list pyval, String.le a.1 b.1) g).

(** The clone of an estimator with the candidate's parameters set on it
    ([set_params]): they override the constructor's. *)
Definition set_params (e : estimator) (params : gmap string pyval) : estimator :=
  Estimator (est_family e) (params ∪ est_kwargs e).


Definition is_classifier (f : family) : bool :=
  match f with LogisticRegression => true | _ => false end.

(** The number of members of each class of a target. *)
Definition class_counts (zs : list Z) : list nat :=
  (λ z, length (filter (λ z', z' = z) zs)) <$> remove_dups zs.

(** The folds that [GridSearchCV.fit] makes of an integer [cv]:
    [StratifiedKFold] for a classifier, [KFold] otherwise.  Both refuse
    fewer than two folds and more folds than rows; the stratified one also
    refuses a target none of whose classes has as many members as there are
    folds.  The stratified folds are transcribed for a target of integers. *)
Definition check_cv (cv : nat) (f : family) (y : column) : outcome () :=
  if decide (cv < 2 ∨ col_len y < cv) then Raise ValueError
  else if is_classifier f then
    match y with
    | IntCol zs =>
        if decide (Forall (λ n, n < cv) (class_counts zs)) then Raise ValueError
        else Ret ()
    | _ => Outside
    end
  else Ret ().

Section Trainer.
(** The mean cross-validated score of a candidate: library code.  Fits that
    fail inside a fold are not represented: they cost the candidate its
    score, and the search raises only when every fit fails. *)
Variable mean_test_score : grid_search → estimator → frame → column → Q.

(** [grid_search.fit(X, y).best_params_]: once the folds are made, the first
    candidate of the grid with the highest score. *)
Definition best_params_ (gs : grid_search) (X : frame) (y : column)
  : outcome (gmap string pyval) :=
  let score params := mean_test_score gs (set_params (gs_estimator gs) params) X y in
  _ ← check_cv (gs_cv gs) (est_family (gs_estimator gs)) y;
  match ParameterGrid (gs_param_grid gs) with
  | [] => Raise ValueError
  | c :: cs =>
      Ret (foldl (λ best c', if Qgt_bool (score c') (score best) then c' else best) c cs)
  end.

Definition param_grid_lr : param_grid :=
  [("C", [PFloat (1 # 1000); PFloat (1 # 100); PFloat (1 # 10);
          PInt 1; PInt 10; PInt 100; PInt 1000])].

Definition estimator_lr : estimator :=
  Estimator LogisticRegression {[ "solver" := PStr "liblinear" ]}.

Definition param_grid_rf : param_grid :=
  [("n_estimators", [PInt 100; PInt 200]);
   ("max_features", [PStr "auto"; PStr "sqrt"]);
   ("max_depth", [PInt 6; PInt 7; PInt 8; PInt 9; PInt 10; PInt 11])].

Definition estimator_rf : estimator := Estimator RandomForestRegressor ∅.

Definition param_grid_xgb : param_grid :=
  [("n_estimators", [PInt 100; PInt 200]);
   ("learning_rate", [PFloat (1 # 100); PFloat (5 # 100); PFloat (1 # 10)]);
   ("max_depth", [PInt 7; PInt 10]);
   ("colsample_bytree", [PFloat (1 # 2); PFloat (7 # 10); PInt 1]);
   ("gamma", [PFloat 0; PFloat (1 # 10); PFloat (2 # 10)])].

Definition estimator_xgb : estimator := Estimator XGBRegressor ∅.

Definition param_grid_cat : param_grid :=
  [("depth", [PInt 6; PInt 8; PInt 10]);
   ("learning_rate", [PFloat (1 # 100); PFloat (5 # 100); PFloat (1 # 10)]);
   ("iterations", [PInt 50; PInt 100; PInt 200])].

(** [np.where((X.dtypes != np.float64) & (X.dtypes != np.int64))[0]] *)
Definition categorical_features_indices (X : frame) : list nat :=
  (filter (λ ip : nat * (string * column), ¬ Is_true (is_number ip.2.2))
          (imap (λ i p, (i, p)) X)).*1.

Definition estimator_cat (X : frame) : estimator :=
  Estimator CatBoostRegressor
    {[ "loss_function" := PStr "RMSE";
       "cat_features" := PIndices (categorical_features_indices X) ]}.

(** The keyword arguments made of the unpacked [params] and
    [cat_features=indices]: a keyword given twice is a [TypeError]. *)
Definition with_cat_features (params : gmap string pyval) (indices : list nat)
  : outcome (gmap string pyval) :=
  match params !! "cat_features" with
  | Some _ => Raise TypeError
  | None => Ret (<["cat_features" := PIndices indices]> params)
  end.

(** The three models of "Training the model", on a split of [df_final]. *)
Definition train_lr (s : split) : outcome fitted :=
  best_params_lr ← best_params_ (GridSearchCV estimator_lr param_grid_lr 5 None)
                                 (X_train s) (y_train s);
  Ret (Fit (Estimator LogisticRegression best_params_lr) (X_train s) (y_train s)).

Definition train_rf (s : split) : outcome fitted :=
  best_params_rf ← best_params_ (GridSearchCV estimator_rf param_grid_rf 5 None)
                                 (X_train s) (y_train s);
  Ret (Fit (Estimator RandomForestRegressor best_params_rf) (X_train s) (y_train s)).

Definition train_xgb (s : split) : outcome fitted :=
  best_params_xgb ← best_params_ (GridSearchCV estimator_xgb param_grid_xgb 5 None)
                                  (X_train s) (y_train s);
  Ret (Fit (Estimator XGBRegressor best_params_xgb) (X_train s) (y_train s)).

(** "Training CatBoostRegressor with categorical variables", on a split of
    its own. *)
Definition train_cat (s : split) : outcome fitted :=
  let indices := categorical_features_indices (X_train s) in
  best_params_cat ← best_params_
      (GridSearchCV (estimator_cat (X_train s)) param_grid_cat 3
                    (Some "neg_root_mean_squared_error"))
      (X_train s) (y_train s);
  kwargs ← with_cat_features best_params_cat indices;
  Ret (Fit (Estimator CatBoostRegressor kwargs) (X_train s) (y_train s)).
End Trainer.

(** ** Evaluator *)

(** What a global name of the notebook can be bound to, as far as the
    evaluation cell is concerned: a function of one number, a function of two
    vectors, or any other object. *)
Inductive object (num : Type) :=
| Function1 (f : num → outcome num)
| Function2 (f : list num → list num → outcome num)
| Other.
Arguments Function1 {num} f.
Arguments Function2 {num} f.
Arguments Other {num}.

Abbreviation namespace num := (gmap string (object num)).

Section Evaluator.
Context {num : Type}.

(** [name(y_test, pred)]: an unbound name is a [NameError], an object that
    is not callable this way a [TypeError]. *)
Definition call2 (globals : namespace num) (name : string) (a b : list num)
  : outcome num :=
  match globals !! name with
  | None => Raise (NameError name)
  | Some (Function2 f) => f a b
  | Some _ => Raise TypeError
  end.

Definition call1 (globals : namespace num) (name : string) (a : num) : outcome num :=
  match globals !! name with
  | None => Raise (NameError name)
  | Some (Function1 f) => f a
  | Some _ => Raise TypeError
  end.

(** [eval_metrics(y_test, pred)]: the function returns nothing; its result
    is the four lines that it prints, given here as labelled values. *)
Definition eval_metrics (globals : namespace num) (y_test pred : list num)
  : outcome (list (string * num)) :=
  mae ← call2 globals "mean_absolute_error" y_test pred;
  mse ← call2 globals "mean_squared_error" y_test pred;
  rmse ← call1 globals "sqrt" mse;
  r2 ← call2 globals "r2_score" y_test pred;
  Ret [("Mean Absolute Error (MAE)", mae);
       ("Mean Squared Error (MSE)", mse);
       ("Root Mean Squared Error (RMSE)", rmse);
       ("R^2 Score", r2)].

(** Every name that the notebook binds at top level: its imports, its two
    functions and its variables. *)
Definition notebook_names : list string :=
  ["pd"; "np"; "plt"; "sns"; "zscore"; "SimpleImputer"; "OrdinalEncoder";
   "LabelEncoder"; "HashingEncoder"; "train_test_split"; "GridSearchCV";
   "LogisticRegression"; "RandomForestRegressor"; "xgb"; "CatBoostRegressor";
   "df"; "rows"; "cols"; "cat_vars"; "threshold"; "missing_percentages";
   "columns_to_drop"; "df_dropped"; "cat_columns"; "num_columns";
   "cat_null_columns"; "num_null_columns"; "most_freq_imp"; "column";
   "still_null"; "fig"; "i"; "col"; "df_clean"; "ord_enc_cols";
   "one_hot_enc_cols"; "bin_enc_cols"; "ord_enc"; "bin_enc"; "df_encoded";
   "model"; "importance"; "feature_importance"; "selected_features";
   "df_final"; "split_dataset"; "X_train"; "X_test"; "y_train"; "y_test";
   "param_grid_lr"; "estimator_lr"; "grid_search_lr"; "best_params_lr";
   "best_lr_model"; "param_grid_rf"; "estimator_rf"; "grid_search_rf";
   "best_params_rf"; "best_rf_model"; "param_grid_xgb"; "estimator_xgb";
   "grid_search_xgb"; "best_params_xgb"; "best_xgb_model"; "lr_pred";
   "rf_pred"; "xgb_pred"; "eval_metrics"; "X_train_01"; "X_test_01";
   "y_train_01"; "y_test_01"; "categorical_features_indices";
   "param_grid_cat"; "estimator_cat"; "grid_search_cat"; "best_params_cat";
   "best_cat_model"; "cat_pred"].

Definition notebook_globals : namespace num :=
  list_to_map ((λ name, (name, Other)) <$> notebook_names).
End Evaluator.

(** ** The notebook from the raw frame to the evaluation *)

(** A cell of a column as the Python value that a function applied to the
    column meets. *)
Inductive scalar :=
| SNaN
| SStr (s : string)
| SFloat (q : Q)
| SInt (z : Z)
| SBool (b : bool).

Definition values (c : column) : list scalar :=
  match c with
  | ObjCol vs => (λ o, match o with Some v => SStr v | None => SNaN end) <$> vs
  | FloatCol vs => (λ o, match o with Some q => SFloat q | None => SNaN end) <$> vs
  | IntCol vs => SInt <$> vs
  | BoolCol vs => SBool <$> vs
  end.

(** The variables that the cells from "Data Cleaning" to "Predicting on
    testing dataset with above models" leave in the kernel. *)
Record kernel := Kernel {
  df_dropped : frame;
  df_encoded : frame;
  df_final : frame;
  data : split;
  best_lr_model : fitted;
  best_rf_model : fitted;
  best_xgb_model : fitted;
  lr_pred : column;
  rf_pred : column;
  xgb_pred : column }.

(** The variables that the cells of "Training CatBoostRegressor with
    categorical variables" add to them. *)
Record kernel_01 := Kernel_01 {
  data_01 : split;
  best_cat_model : fitted;
  cat_pred : column }.

Section Notebook.
Variable forest_importances : Z → frame → column → outcome (list Q).
Variable mean_test_score : grid_search → estimator → frame → column → Q.
(** [model.predict(X)]: library code. *)
Variable predict : fitted → frame → outcome column.

(** The cells from "Data Cleaning" to the predictions of the three models,
    for the frame [df] that the cells before them have loaded and shown; [d]
    is what [train_test_split] draws. *)
Definition model_cells (df : frame) (d : draw) : outcome kernel :=
  df_dropped ← Cleaner df;
  _ ← Visualizer df_dropped;
  df_encoded ← Encoder df_dropped;
  df_final ← FeatureSelector forest_importances df_encoded;
  s ← split_dataset df_final "SalePrice" d;
  lr ← train_lr mean_test_score s;
  rf ← train_rf mean_test_score s;
  xgb ← train_xgb mean_test_score s;
  lr_pred ← predict lr (X_test s);
  rf_pred ← predict rf (X_test s);
  xgb_pred ← predict xgb (X_test s);
  Ret (Kernel df_dropped df_encoded df_final s lr rf xgb lr_pred rf_pred xgb_pred).

(** The three cells of "Evaluating the models performance" that call
    [eval_metrics]. *)
Definition evaluation_cells (k : kernel) : outcome (list (list (string * scalar))) :=
  let actual := values (y_test (data k)) in
  lr ← eval_metrics notebook_globals actual (values (lr_pred k));
  rf ← eval_metrics notebook_globals actual (values (rf_pred k));
  xgb ← eval_metrics notebook_globals actual (values (xgb_pred k));
  Ret [lr; rf; xgb].

(** The cells of "Training CatBoostRegressor with categorical variables" up
    to the prediction: of the variables of the kernel they read [df_dropped],
    which they split with a draw of their own. *)
Definition catboost_cells (df_dropped : frame) (d_01 : draw) : outcome kernel_01 :=
  s ← split_dataset df_dropped "SalePrice" d_01;
  cat ← train_cat mean_test_score s;
  cat_pred ← predict cat (X_test s);
  Ret (Kernel_01 s cat cat_pred).

(** The last cell. *)
Definition catboost_evaluation (k : kernel_01) : outcome (list (string * scalar)) :=
  eval_metrics notebook_globals (values (y_test (data_01 k))) (values (cat_pred k)).

(** A run of all these cells from top to bottom: it stops at the first cell
    that raises.  (The kernel survives that: it keeps the variables bound so
    far, and the cells below can still be executed in it one by one.) *)
Definition notebook (df : frame) (d d_01 : draw) : outcome (kernel * kernel_01) :=
  k ← model_cells df d;
  _ ← evaluation_cells k;
  k_01 ← catboost_cells (df_dropped k) d_01;
  _ ← catboost_evaluation k_01;
  Ret (k, k_01).
End Notebook.

(** ** Vocabulary of the properties *)

(** What a loop of column updates makes of one column: [f] of it when its
    label is in the list, the column itself otherwise. *)
Definition updated (f : column → outcome column) (labels : list string)
    (p p' : string * column) : Prop :=
  p'.1 = p.1 ∧ if decide (p.1 ∈ labels) then f p.2 = Ret p'.2 else p'.2 = p.2.

(** A column with at least one cell that is not missing. *)
Definition has_value (c : column) : Prop :=
  match c with
  | ObjCol vs => present vs ≠ []
  | FloatCol vs => present vs ≠ []
  | _ => True
  end.

(** The columns that survive the two drops. *)
Definition kept (df : frame) : frame :=
  filter (λ p : string * column, p.1 ∉ ["Id"])
         (filter (λ p : string * column, p.1 ∉ columns_to_drop df) df).

(** A column all of whose cells are missing: its missing fraction is 1. *)
Definition wholly_null (c : column) : Prop :=
  ∃ q, isnull_mean c = Some q ∧ (q == 1)%Q.





(** [t] is [q] without its fractional part: the integer next to [q] on the
    side of zero. *)
Definition toward_zero (q : Q) (t : Z) : Prop :=
  ((0 <= q)%Q → (0 <= t)%Z ∧ (inject_Z t <= q)%Q ∧ (q < inject_Z t + 1)%Q)
  ∧ ((q <= 0)%Q → (t <= 0)%Z ∧ (inject_Z t - 1 < q)%Q ∧ (q <= inject_Z t)%Q).

(** A model that was fitted on the training part of a split of [df]. *)
Definition fitted_on_split_of (m : fitted) (df : frame) : Prop :=
  ∃ d s, split_dataset df "SalePrice" d = Ret s
         ∧ fit_X m = X_train s ∧ fit_y m = y_train s.

(** ** A small frame with the notebook's schema *)

(** Four houses.  Every column of the three encoder groups is there, with an
    identifier, a numeric column with one missing cell, a column without
    any value and the target. *)
Definition categorical_sample (label : string) : string * column :=
  (label, ObjCol [Some "Gd"; Some "TA"; None; Some "TA"]).

Definition sample : frame :=
  [("Id", IntCol [1; 2; 3; 4]%Z);
   ("LotFrontage", FloatCol [Some 65%Q; Some (161 # 2)%Q; None; Some 60%Q]);
   ("PoolQC", ObjCol [None; None; None; None])]
  ++ (categorical_sample <$> ord_enc_cols ++ one_hot_enc_cols)
  ++ [("CentralAir", ObjCol [Some "Y"; Some "N"; Some "Y"; Some "Y"]);
      ("SalePrice", IntCol [208500; 181500; 223500; 140000]%Z)].

(** Its cleaned and its encoded frame. *)
Definition sample_cleaned : frame :=
  Eval vm_compute in match Cleaner sample with Ret d => d | _ => [] end.

Definition sample_encoded : frame :=
  Eval vm_compute in match Encoder sample_cleaned with Ret d => d | _ => [] end.

(** A stand-in for the forest: every second feature is given an importance
    of its own above the threshold, the others are set exactly on the
    threshold. *)
Definition striped_importances (seed : Z) (X : frame) (y : column) : outcome (list Q) :=
  Ret (imap (λ i _, if Nat.even i then (Z.of_nat (i + 2) # 1000)%Q
                    else importance_threshold) X).

Definition sample_selected : list string :=
  Eval vm_compute in
    match selected_features striped_importances sample_encoded with
    | Ret sel => sel
    | _ => []
    end.

(** A stand-in for cross-validation: every candidate scores alike. *)
Definition flat_score (gs : grid_search) (e : estimator) (X : frame) (y : column) : Q :=
  0%Q.

Definition sample_draw : draw := Draw [1; 2; 3] [0].

(** A split of a feature-selected frame and a split of a cleaned frame:
    eight houses to train on, two to test on. *)
Definition sample_split : split :=
  Split [("LotFrontage", IntCol [80; 68; 60; 84; 85; 75; 51; 50]%Z);
         ("Street_Pave", IntCol [1; 0; 1; 1; 1; 1; 0; 1]%Z)]
        [("LotFrontage", IntCol [65; 70]%Z); ("Street_Pave", IntCol [1; 1]%Z)]
        (IntCol [200000; 200000; 200000; 200000; 181500; 200000; 223500; 200000]%Z)
        (IntCol [208500; 200000]%Z).

Definition sample_split_01 : split :=
  Split [("LotFrontage", FloatCol [Some 80%Q; Some (275 # 4)%Q; Some 60%Q; Some 84%Q;
                                   Some 85%Q; Some 75%Q; Some 51%Q; Some 50%Q]);
         ("Street", ObjCol [Some "Pave"; Some "Grvl"; Some "Pave"; Some "Pave";
                            Some "Pave"; Some "Pave"; Some "Grvl"; Some "Pave"])]
        [("LotFrontage", FloatCol [Some 65%Q; Some 70%Q]);
         ("Street", ObjCol [Some "Pave"; Some "Pave"])]
        (IntCol [200000; 200000; 200000; 200000; 181500; 200000; 223500; 200000]%Z)
        (IntCol [208500; 200000]%Z).

(** Ten houses with the schema of the small frame, for the cells that train:
    the searches make five and three folds. *)
Definition categorical_houses (label : string) : string * column :=
  (label, ObjCol [Some "Gd"; Some "TA"; None; Some "TA"; Some "Fa";
                  Some "TA"; Some "Gd"; Some "TA"; Some "TA"; Some "Gd"]).

Definition houses : frame :=
  [("Id", IntCol [1; 2; 3; 4; 5; 6; 7; 8; 9; 10]%Z);
   ("LotFrontage", FloatCol [Some 65%Q; Some 80%Q; None; Some 60%Q; Some 84%Q;
                             Some 85%Q; Some 75%Q; None; Some 51%Q; Some 50%Q]);
   ("PoolQC", ObjCol (replicate 10 None))]
  ++ (categorical_houses <$> ord_enc_cols ++ one_hot_enc_cols)
  ++ [("CentralAir", ObjCol [Some "Y"; Some "Y"; Some "N"; Some "Y"; Some "Y";
                             Some "Y"; Some "N"; Some "Y"; Some "Y"; Some "Y"]);
      ("SalePrice", IntCol [200000; 200000; 200000; 200000; 181500;
                            200000; 200000; 223500; 250000; 200000]%Z)].

Definition houses_draw : draw := Draw [9; 2; 5; 0; 7; 3; 1; 6] [8; 4].
Definition houses_draw_01 : draw := Draw [4; 0; 8; 6; 1; 9; 3; 5] [2; 7].

(** One house with 41 categorical columns. *)
Definition wide : frame :=
  [("Id", IntCol [1]%Z); ("SalePrice", IntCol [208500]%Z)]
  ++ ((λ i : nat, ("Misc" +:+ pretty i, ObjCol [Some "TA"])) <$> seq 0 41).

(** A stand-in for [predict]: the same price for every row. *)
Definition constant_predict (m : fitted) (X : frame) : outcome column :=
  Ret (IntCol (replicate (match X with [] => 0 | p :: _ => col_len p.2 end) 200000%Z)).


(** ** Vocabulary of the further properties *)

(** [vs'] is [vs] with missing cells filled in, present cells untouched. *)
Definition fills {A} (vs vs' : list (option A)) : Prop :=
  Forall2 (λ o o', o = None ∨ o' = o) vs vs'.

(** The same for columns: same dtype, same number of rows, and only cells
    that were missing differ. *)
Definition only_fills (c c' : column) : Prop :=
  match c, c' with
  | ObjCol vs, ObjCol vs' => fills vs vs'
  | FloatCol vs, FloatCol vs' => fills vs vs'
  | IntCol vs, IntCol vs' => vs' = vs
  | BoolCol vs, BoolCol vs' => vs' = vs
  | _, _ => False
  end.

(** What the scan for the most frequent value has established after the
    values [seen]. *)
Definition leads (vs : list (option string)) (seen : list string) (b : string) : Prop :=
  b ∈ seen
  ∧ (∀ v, v ∈ seen → occurrences v vs ≤ occurrences b vs)
  ∧ (∀ v, v ∈ seen → occurrences v vs = occurrences b vs → String.le b v).

(** The codes of an object column: every cell has a value, and its code is
    the position of the value among the sorted distinct values. *)
Definition coded (vs : list (option string)) (codes : list Z) : Prop :=
  Forall2 (λ o z, ∃ v i, o = Some v ∧ z = Z.of_nat i ∧ levels vs !! i = Some v)
          vs codes.

(** The codes of the label encoder: as above for a cell with a value, and
    the number of distinct values, one past the last position, for a missing
    cell. *)
Definition label_coded (vs : list (option string)) (codes : list Z) : Prop :=
  Forall2 (λ o z, match o with
                  | Some v => ∃ i, z = Z.of_nat i ∧ levels vs !! i = Some v
                  | None => z = Z.of_nat (length (levels vs))
                  end) vs codes.

(** All columns have [n] rows. *)
Definition rows (n : nat) (df : frame) : Prop := ∀ p, p ∈ df → col_len p.2 = n.

(** [a] is at least as important as [b]. *)
Definition more_important (a b : string * Q) : Prop := Is_true (Qle_bool b.2 a.2).

Definition sample_final : frame :=
  Eval vm_compute in
    match FeatureSelector striped_importances sample_encoded with
    | Ret d => d
    | _ => []
    end.

(** Row [k] of [c'] is row [idx !! k] of [c], for every [k]. *)
Definition rows_from (idx : list nat) (c c' : column) : Prop :=
  ∀ k i, idx !! k = Some i →
         ∃ row, take_rows [k] c' = Ret row ∧ take_rows [i] c = Ret row.

Definition sample_frame_split : split :=
  Eval vm_compute in
    match split_dataset sample_cleaned "SalePrice" sample_draw with
    | Ret s => s
    | _ => Split [] [] (IntCol []) (IntCol [])
    end.

(** A stand-in for cross-validation that likes large values of [C]. *)
Definition score_by_C (gs : grid_search) (e : estimator) (X : frame) (y : column) : Q :=
  match est_kwargs e !! "C" with
  | Some (PInt z) => inject_Z z
  | Some (PFloat q) => q
  | _ => 0%Q
  end.

(** The integers of dtype [int64], and the floats whose integer part is one
    of them.  A float with a fractional part is below 2^52 in magnitude. *)
Definition int64 (z : Z) : Prop := (- 2 ^ 63 ≤ z < 2 ^ 63)%Z.

Definition in_int64_range (q : Q) : Prop :=
  (inject_Z (- 2 ^ 63) <= q)%Q ∧ (q < inject_Z (2 ^ 63))%Q.

(** The small frame with half of its prices missing. *)
Definition unpriced : frame :=
  filter (λ p : string * column, p.1 ≠ "SalePrice") sample
  ++ [("SalePrice", FloatCol [Some 208500%Q; None; None; Some 140000%Q])].



(** A stand-in for what the fits of the forest can give: a seeded forest
    gives the striped importances, an unseeded one anything. *)
Definition sample_forest_fit (random_state : option Z) (X : frame) (y : column)
    (r : outcome (list Q)) : Prop :=
  match random_state with
  | Some seed => r = striped_importances seed X y
  | None => True
  end.

(** A column that [astype(int)] accepts: no strings, no missing cell. *)
Definition castable (c : column) : Prop :=
  match c with
  | ObjCol _ => False
  | FloatCol vs => complete (FloatCol vs)
  | _ => True
  end.

(** * Properties *)

(** ** Outcomes and loops *)

Lemma bind_Ret {A B} (m : outcome A) (f : A → outcome B) b :
  m ≫= f = Ret b ↔ ∃ a, m = Ret a ∧ f a = Ret b.
Proof.
  destruct m as [a| |]; simpl; split; try discriminate; eauto.
  - intros (a' & [= ->] & ?); done.
  - intros (? & ? & ?); discriminate.
  - intros (? & ? & ?); discriminate.
Qed.

Ltac inv_bind H :=
  repeat match type of H with
  | _ ≫= _ = Ret _ =>
      let a := fresh "a" in let Ha := fresh "H" a in
      apply bind_Ret in H as (a & Ha & H)
  end.

Lemma map_out_Ret {A B} (f : A → outcome B) xs ys :
  map_out f xs = Ret ys ↔ Forall2 (λ x y, f x = Ret y) xs ys.
Proof.
  revert ys. induction xs as [|x xs IH]; intros ys; simpl.
  - split.
    + intros [= <-]. constructor.
    + intros H. by inversion H.
  - split.
    + intros H. inv_bind H. injection H as <-. constructor; [done|]. by apply IH.
    + intros H. inversion H as [|? y ? ys' Hx Hxs]; subst.
      rewrite Hx. simpl. apply IH in Hxs. rewrite Hxs. done.
Qed.

(** ** Column access *)

Lemma getcol_Ret_elem label df c : getcol label df = Ret c → (label, c) ∈ df.
Proof.
  unfold getcol. intros H.
  destruct (filter _ df) as [|p [|? ?]] eqn:E; try discriminate.
  injection H as <-.
  assert (Hp : p ∈ filter (λ p : string * column, p.1 = label) df)
    by (rewrite E; apply list_elem_of_here).
  apply list_elem_of_filter in Hp as [Hl Hp]. destruct p; simpl in *; by subst.
Qed.

Lemma filter_label_absent label (df : frame) :
  label ∉ names df → filter (λ p : string * column, p.1 = label) df = [].
Proof.
  unfold names. induction df as [|[l' c'] df IH]; intros Hnotin; [done|].
  rewrite fmap_cons in Hnotin. apply not_elem_of_cons in Hnotin as [Hne Hnotin].
  rewrite filter_cons_False by (intros E; by apply Hne). by apply IH.
Qed.

Lemma filter_label_NoDup label c (df : frame) :
  NoDup (names df) → (label, c) ∈ df →
  filter (λ p : string * column, p.1 = label) df = [(label, c)].
Proof.
  unfold names. induction df as [|[l' c'] df IH]; intros Hnd Hin.
  - by apply elem_of_nil in Hin.
  - rewrite fmap_cons in Hnd. apply NoDup_cons in Hnd as [Hnotin Hnd].
    apply elem_of_cons in Hin as [[= <- <-]|Hin].
    + rewrite filter_cons_True by done. f_equal. by apply filter_label_absent.
    + rewrite filter_cons_False; [by apply IH|].
      simpl. intros ->. apply Hnotin.
      apply list_elem_of_fmap. by exists (label, c).
Qed.

Lemma getcol_NoDup label c df :
  NoDup (names df) → (label, c) ∈ df → getcol label df = Ret c.
Proof. intros Hnd Hin. unfold getcol. by rewrite (filter_label_NoDup label c). Qed.

Lemma elem_names label c (df : frame) : (label, c) ∈ df → label ∈ names df.
Proof. intros H. apply list_elem_of_fmap. by exists (label, c). Qed.

Lemma names_elem label (df : frame) : label ∈ names df → ∃ c, (label, c) ∈ df.
Proof.
  intros H. apply list_elem_of_fmap in H as ([l c] & -> & H). by exists c.
Qed.

Lemma NoDup_names_inj label c c' (df : frame) :
  NoDup (names df) → (label, c) ∈ df → (label, c') ∈ df → c = c'.
Proof.
  intros Hnd H H'.
  pose proof (getcol_NoDup _ _ _ Hnd H) as E.
  rewrite (getcol_NoDup _ _ _ Hnd H') in E. congruence.
Qed.

Lemma names_setcol label c df : label ∈ names df → names (setcol label c df) = names df.
Proof.
  intros Hin. unfold setcol. rewrite decide_True by done.
  unfold names. rewrite <- list_fmap_compose. apply list_fmap_ext.
  intros i [l' c'] _. simpl. by case_decide.
Qed.

(** The frame after [df[label] = c], column by column. *)
Lemma setcol_Forall2 label c df :
  label ∈ names df →
  Forall2 (λ p p' : string * column,
             p'.1 = p.1 ∧ p'.2 = if decide (p.1 = label) then c else p.2)
          df (setcol label c df).
Proof.
  intros Hin. unfold setcol. rewrite decide_True by done.
  apply Forall2_fmap_r, Forall_Forall2_diag, Forall_forall.
  intros [l' c'] _. simpl. case_decide; simpl; by subst.
Qed.

(** ** Dropping columns *)

Lemma drop_columns_Ret labels df df' :
  drop_columns labels df = Ret df' ↔
  labels ⊆ names df ∧ df' = filter (λ p : string * column, p.1 ∉ labels) df.
Proof.
  unfold drop_columns.
  destruct (filter (λ l, l ∉ names df) labels) as [|l ls] eqn:E.
  - split.
    + intros [= <-]. split; [|done]. intros l Hl.
      destruct (decide (l ∈ names df)) as [|Hn]; [done|].
      by pose proof (filter_nil_not_elem_of _ _ l E Hn).
    + by intros [_ ->].
  - split; [discriminate|]. intros [Hsub _].
    assert (Hl : l ∈ filter (λ l, l ∉ names df) labels)
      by (rewrite E; apply list_elem_of_here).
    apply list_elem_of_filter in Hl as [Hl1 Hl2]. by apply Hsub in Hl2.
Qed.

Lemma columns_to_drop_elem label df :
  label ∈ columns_to_drop df ↔
  ∃ c, (label, c) ∈ df ∧ gt threshold (isnull_mean c) = true.
Proof.
  unfold columns_to_drop, missing_percentages. split.
  - intros H. apply list_elem_of_fmap in H as ([l m] & -> & H).
    apply list_elem_of_filter in H as [Hgt H].
    apply list_elem_of_fmap in H as ([l' c] & [= -> ->] & H).
    exists c. split; [done|]. by apply Is_true_true.
  - intros (c & Hin & Hgt). apply list_elem_of_fmap.
    exists (label, isnull_mean c). split; [done|].
    apply list_elem_of_filter. split; [by apply Is_true_true|].
    apply list_elem_of_fmap. by exists (label, c).
Qed.

Lemma columns_to_drop_names df : columns_to_drop df ⊆ names df.
Proof.
  intros l Hl. apply columns_to_drop_elem in Hl as (c & Hin & _).
  by eapply elem_names.
Qed.

(** ** Loops that rewrite columns *)

Lemma update_column_Ret f label df df' :
  update_column f label df = Ret df' →
  ∃ c c', getcol label df = Ret c ∧ f c = Ret c' ∧ df' = setcol label c' df.
Proof.
  unfold update_column. intros H. inv_bind H. injection H as <-. eauto.
Qed.

Lemma update_column_intro f label df c c' :
  getcol label df = Ret c → f c = Ret c' →
  update_column f label df = Ret (setcol label c' df).
Proof. intros Hget Hf. unfold update_column. rewrite Hget. simpl. by rewrite Hf. Qed.

Lemma for_each_cons {A S} (x : A) xs (body : A → S → outcome S) s :
  for_each (x :: xs) body s = body x s ≫= for_each xs body.
Proof. done. Qed.

Lemma for_each_update_names f labels df df' :
  for_each labels (update_column f) df = Ret df' → names df' = names df.
Proof.
  revert df. induction labels as [|l labels IH]; intros df; simpl.
  - by intros [= <-].
  - intros H. inv_bind H.
    apply update_column_Ret in Ha as (c & c' & Hget & _ & ->).
    rewrite (IH _ H). apply names_setcol.
    eapply elem_names, getcol_Ret_elem, Hget.
Qed.

Lemma for_each_update_spec f labels df df' :
  NoDup (names df) → NoDup labels →
  for_each labels (update_column f) df = Ret df' →
  Forall2 (updated f labels) df df'.
Proof.
  revert df. induction labels as [|l labels IH]; intros df Hnd Hl; simpl.
  - intros [= <-]. apply Forall_Forall2_diag, Forall_forall.
    intros p _. unfold updated. split; [done|]. rewrite decide_False; [done|]. apply not_elem_of_nil.
  - intros H. inv_bind H. apply NoDup_cons in Hl as [Hl1 Hl2].
    apply update_column_Ret in Ha as (c & c' & Hget & Hf & ->).
    pose proof (getcol_Ret_elem _ _ _ Hget) as Hin.
    pose proof (setcol_Forall2 l c' df (elem_names _ _ _ Hin)) as H1.
    assert (Hnd' : NoDup (names (setcol l c' df))).
    { rewrite names_setcol; [done|]. by eapply elem_names. }
    pose proof (IH _ Hnd' Hl2 H) as H2.
    apply Forall2_same_length_lookup. split.
    { rewrite (Forall2_length _ _ _ H1). by apply Forall2_length in H2. }
    intros i p p' Hp Hp'.
    destruct (Forall2_lookup_l _ _ _ _ _ H1 Hp) as (p1 & Hp1 & E1 & E2).
    destruct (Forall2_lookup_lr _ _ _ _ _ _ H2 Hp1 Hp') as [E3 E4].
    unfold updated. split; [congruence|]. rewrite E1 in E4.
    destruct (decide (p.1 = l)) as [Heq|Hne].
    + rewrite decide_True by (rewrite Heq; apply list_elem_of_here).
      rewrite decide_False in E4 by (by rewrite Heq). rewrite E4, E2.
      assert (p.2 = c) as ->; [|done].
      apply (NoDup_names_inj l _ _ df Hnd); [|done].
      apply list_elem_of_lookup_2 in Hp. destruct p; simpl in *; by subst.
    + rewrite E2 in E4. case_decide as Hd.
      * rewrite decide_True; [done|]. by apply list_elem_of_further.
      * rewrite decide_False; [done|]. by intros [?|?]%elem_of_cons.
Qed.

Lemma for_each_update_total f labels df :
  NoDup (names df) → NoDup labels →
  (∀ l, l ∈ labels → ∃ c c', (l, c) ∈ df ∧ f c = Ret c') →
  ∃ df', for_each labels (update_column f) df = Ret df'.
Proof.
  revert df. induction labels as [|l labels IH]; intros df Hnd Hl Hf.
  - simpl. eauto.
  - apply NoDup_cons in Hl as [Hl1 Hl2].
    destruct (Hf l) as (c & c' & Hin & Hc); [apply list_elem_of_here|].
    rewrite for_each_cons, (update_column_intro f l df c c');
      [|by apply getcol_NoDup|done].
    simpl. apply IH; [|done|].
    + rewrite names_setcol; [done|]. by eapply elem_names.
    + intros l2 Hl2in.
      destruct (Hf l2) as (c2 & c2' & Hin2 & Hc2); [by apply list_elem_of_further|].
      exists c2, c2'. split; [|done].
      apply list_elem_of_lookup_1 in Hin2 as [i Hi].
      destruct (Forall2_lookup_l _ _ _ _ _
                  (setcol_Forall2 l c' df (elem_names _ _ _ Hin)) Hi)
        as ([l3 c3] & Hi3 & E1 & E2).
      simpl in *. rewrite decide_False in E2 by (intros ->; done). subst.
      by eapply list_elem_of_lookup_2.
Qed.

(** ** Cleaner: which columns have missing cells *)

Lemma null_columns_Ret cols df ls :
  null_columns cols df = Ret ls →
  ls `sublist_of` cols ∧
  ∀ l, l ∈ ls ↔ l ∈ cols ∧ ∃ c, getcol l df = Ret c ∧ isnull_any c = true.
Proof.
  revert ls. induction cols as [|l0 cols IH]; intros ls; simpl.
  - intros [= <-]. split; [done|]. intros l. split.
    + by intros ?%elem_of_nil.
    + by intros [?%elem_of_nil _].
  - intros H. inv_bind H. injection H as <-.
    destruct (IH _ Ha0) as [Hsub Hiff].
    destruct (isnull_any a) eqn:Hnull.
    + split; [by apply sublist_skip|]. intros l. rewrite !elem_of_cons, Hiff.
      split.
      * intros [->|[Hl Hc]]; [|by auto]. split; [by left|]. by exists a.
      * intros [[->|Hl] Hc]; [by left|]. right. by split.
    + split; [by apply sublist_cons|]. intros l. rewrite elem_of_cons, Hiff.
      split.
      * intros [Hl Hc]. by auto.
      * intros [[->|Hl] (c & Hc & Hn)]; [congruence|]. split; [done|]. by exists c.
Qed.

Lemma null_columns_total cols df :
  NoDup (names df) → cols ⊆ names df → ∃ ls, null_columns cols df = Ret ls.
Proof.
  intros Hnd. induction cols as [|l cols IH]; intros Hsub; simpl; [eauto|].
  destruct (names_elem l df) as [c Hc]; [apply Hsub, list_elem_of_here|].
  rewrite (getcol_NoDup _ _ _ Hnd Hc). simpl.
  destruct IH as [ls ->]; [|simpl; eauto].
  intros l' Hl'. by apply Hsub, list_elem_of_further.
Qed.

Lemma cat_columns_elem label df :
  label ∈ cat_columns df ↔ ∃ c, (label, c) ∈ df ∧ is_object c = true.
Proof.
  unfold cat_columns. rewrite list_elem_of_fmap. split.
  - intros ([l c] & -> & [Hc Hin]%list_elem_of_filter).
    exists c. split; [done|]. by apply Is_true_true.
  - intros (c & Hin & Hc). exists (label, c). split; [done|].
    apply list_elem_of_filter. split; [|done]. by apply Is_true_true.
Qed.

Lemma num_columns_elem label df :
  label ∈ num_columns df ↔ ∃ c, (label, c) ∈ df ∧ is_number c = true.
Proof.
  unfold num_columns. rewrite list_elem_of_fmap. split.
  - intros ([l c] & -> & [Hc Hin]%list_elem_of_filter).
    exists c. split; [done|]. by apply Is_true_true.
  - intros (c & Hin & Hc). exists (label, c). split; [done|].
    apply list_elem_of_filter. split; [|done]. by apply Is_true_true.
Qed.

Lemma filter_names_NoDup (P : string * column → Prop) `{∀ p, Decision (P p)}
    (df : frame) :
  NoDup (names df) → NoDup (names (filter P df)).
Proof.
  intros Hnd. eapply sublist_NoDup; [exact Hnd|].
  unfold names. apply fmap_sublist, sublist_filter.
Qed.

(** ** Cleaner: a column that is kept has a value to impute with *)

Lemma present_nil_isnull {A} (vs : list (option A)) :
  present vs = [] → filter Is_true (is_none <$> vs) = is_none <$> vs.
Proof.
  unfold present. induction vs as [|[v|] vs IH]; simpl; [done|discriminate|].
  intros H. rewrite filter_cons_True by done. f_equal. by apply IH.
Qed.

Lemma gt_threshold_all_missing n :
  gt threshold (Some (Z.of_nat (S n) # Pos.of_succ_nat n)) = true.
Proof.
  unfold gt, Qgt_bool, Qle_bool, threshold. simpl Qnum. simpl Qden.
  apply negb_true_iff, Z.leb_gt. rewrite Zpos_P_of_succ_nat. lia.
Qed.

Lemma kept_has_value c :
  gt threshold (isnull_mean c) = false → isnull_any c = true → has_value c.
Proof.
  intros Hgt Hany.
  assert (Hall : ∀ A (vs : list (option A)),
             gt threshold (match length vs with
                           | O => None
                           | S n => Some (Z.of_nat (length (filter Is_true (is_none <$> vs)))
                                          # Pos.of_succ_nat n)
                           end) = false →
             existsb id (is_none <$> vs) = true → present vs ≠ []).
  { intros A vs Hg He Hp. rewrite (present_nil_isnull _ Hp), length_fmap in Hg.
    destruct vs as [|v vs]; [discriminate|]. simpl length in Hg. cbv beta iota in Hg.
    by rewrite gt_threshold_all_missing in Hg. }
  destruct c as [vs|vs|vs|vs]; simpl; try done.
  - apply Hall; [|done]. revert Hgt. unfold isnull_mean, isnull_sum. simpl. done.
  - apply Hall; [|done]. revert Hgt. unfold isnull_mean, isnull_sum. simpl. done.
Qed.

Lemma levels_elem vs v : v ∈ levels vs ↔ Some v ∈ vs.
Proof.
  unfold levels, present. rewrite merge_sort_Permutation, elem_of_remove_dups.
  rewrite list_elem_of_omap. split.
  - intros ([x|] & Hin & [= <-]). done.
  - intros Hin. by exists (Some v).
Qed.

Lemma levels_NoDup vs : NoDup (levels vs).
Proof. unfold levels. rewrite merge_sort_Permutation. apply NoDup_remove_dups. Qed.

Lemma levels_nil vs : levels vs = [] → present vs = [].
Proof.
  intros H. destruct (present vs) as [|v l] eqn:E; [done|].
  assert (Hv : v ∈ levels vs).
  { unfold levels. rewrite merge_sort_Permutation, elem_of_remove_dups, E.
    apply list_elem_of_here. }
  rewrite H in Hv. by apply elem_of_nil in Hv.
Qed.

Lemma most_frequent_is_Some vs : present vs ≠ [] → is_Some (most_frequent vs).
Proof.
  intros Hp. unfold most_frequent.
  destruct (levels vs) as [|v l] eqn:E; [by apply levels_nil in E|].
  simpl. clear E. generalize v. induction l as [|w l IH]; intros b; simpl; [eauto|].
  case_decide; apply IH.
Qed.

Lemma fill_complete {A} (m : A) vs : existsb id (is_none <$> fill m vs) = false.
Proof. unfold fill. induction vs as [|[v|] vs IH]; simpl; done. Qed.

Lemma most_freq_imp_complete c c' : most_freq_imp c = Ret c' → complete c'.
Proof.
  destruct c as [vs| | |]; simpl; try discriminate.
  destruct (most_frequent vs); [|discriminate].
  intros [= <-]. apply fill_complete.
Qed.

Lemma fillna_mean_complete c c' :
  has_value c → fillna_mean c = Ret c' → complete c'.
Proof.
  destruct c as [|vs|vs|]; simpl; try discriminate.
  - intros Hv. unfold mean. destruct (present vs); [done|].
    intros [= <-]. apply fill_complete.
  - intros _ [= <-]. unfold complete, isnull_any. simpl.
    by induction vs.
Qed.

(** ** Cleaner: the cleaned frame *)

Lemma Cleaner_Ret df cleaned :
  Cleaner df = Ret cleaned ↔
  "Id" ∈ names df ∧ ("Id" ∉ columns_to_drop df) ∧
  ∃ cat_null num_null filled,
    null_columns (cat_columns (kept df)) (kept df) = Ret cat_null ∧
    null_columns (num_columns (kept df)) (kept df) = Ret num_null ∧
    for_each cat_null (update_column most_freq_imp) (kept df) = Ret filled ∧
    for_each num_null (update_column fillna_mean) filled = Ret cleaned.
Proof.
  unfold Cleaner.
  assert (E1 : drop_columns (columns_to_drop df) df
               = Ret (filter (λ p : string * column, p.1 ∉ columns_to_drop df) df)).
  { apply drop_columns_Ret. split; [apply columns_to_drop_names|done]. }
  rewrite E1. simpl. split.
  - intros H. inv_bind H. apply drop_columns_Ret in Ha as [Hsub ->].
    assert (HId : "Id" ∈ names (filter (λ p : string * column,
                                          p.1 ∉ columns_to_drop df) df))
      by apply Hsub, list_elem_of_here.
    apply names_elem in HId as [c [Hc Hin]%list_elem_of_filter].
    split; [by eapply elem_names|]. split; [done|].
    exists a0, a1, a2. done.
  - intros (HId & Hnot & cat_null & num_null & filled & H1 & H2 & H3 & H4).
    assert (E2 : drop_columns ["Id"]
                   (filter (λ p : string * column, p.1 ∉ columns_to_drop df) df)
                 = Ret (kept df)).
    { apply drop_columns_Ret. split; [|done].
      intros l ->%list_elem_of_singleton.
      apply names_elem in HId as [c Hc]. apply (elem_names _ c).
      apply list_elem_of_filter. done. }
    rewrite E2. simpl. rewrite H1. simpl. rewrite H2. simpl. rewrite H3. done.
Qed.

Lemma kept_elem label c df :
  (label, c) ∈ kept df ↔
  (label, c) ∈ df ∧ (label ∉ columns_to_drop df) ∧ label ≠ "Id".
Proof.
  unfold kept. rewrite !list_elem_of_filter. simpl.
  rewrite list_elem_of_singleton. tauto.
Qed.

Lemma Cleaner_names df cleaned :
  Cleaner df = Ret cleaned → names cleaned = names (kept df).
Proof.
  intros (_ & _ & cn & nn & filled & _ & _ & H3 & H4)%Cleaner_Ret.
  apply for_each_update_names in H3, H4. congruence.
Qed.

Lemma gt_threshold_true q : gt threshold (Some q) = true ↔ (threshold < q)%Q.
Proof.
  unfold gt, Qgt_bool. rewrite negb_true_iff, <- not_true_iff_false, Qle_bool_iff.
  split; [apply Qnot_le_lt|apply Qlt_not_le].
Qed.

(** C2.  Whenever the Cleaner yields a frame: a column of the raw frame whose
    missing fraction is above 0.3 is not in it, the column [Id] is not in
    it, and (labels being distinct) every column other than [Id] whose
    missing fraction is at most 0.3 is in it. *)
Theorem Cleaner_drops_by_threshold df cleaned :
  Cleaner df = Ret cleaned →
  (∀ label c q, (label, c) ∈ df → isnull_mean c = Some q → (threshold < q)%Q →
                label ∉ names cleaned)
  ∧ ("Id" ∉ names cleaned)
  ∧ (NoDup (names df) →
     ∀ label c q, (label, c) ∈ df → isnull_mean c = Some q → (q <= threshold)%Q →
                  label ≠ "Id" → label ∈ names cleaned).
Proof.
  intros H. rewrite (Cleaner_names _ _ H). split; [|split].
  - intros label c q Hin Hq Hlt [c' Hc']%names_elem.
    apply kept_elem in Hc' as (_ & Hnot & _). apply Hnot.
    apply columns_to_drop_elem. exists c. split; [done|].
    rewrite Hq. by apply gt_threshold_true.
  - intros [c' Hc']%names_elem. by apply kept_elem in Hc' as (_ & _ & ?).
  - intros Hnd label c q Hin Hq Hle Hne. apply (elem_names _ c).
    apply kept_elem. split; [done|]. split; [|done].
    intros (c' & Hin' & Hgt)%columns_to_drop_elem.
    rewrite (NoDup_names_inj _ _ _ _ Hnd Hin' Hin), Hq in Hgt.
    apply gt_threshold_true in Hgt. by apply Qlt_not_le in Hgt.
Qed.

Lemma kept_NoDup df : NoDup (names df) → NoDup (names (kept df)).
Proof. intros Hnd. unfold kept. by do 2 apply filter_names_NoDup. Qed.

Lemma getcol_kept label c df :
  NoDup (names df) → getcol label (kept df) = Ret c → (label, c) ∈ kept df.
Proof. intros _. apply getcol_Ret_elem. Qed.

Lemma kept_below_threshold label c df :
  (label, c) ∈ kept df → gt threshold (isnull_mean c) = false.
Proof.
  intros (Hin & Hnot & _)%kept_elem. apply not_true_iff_false. intros Hgt.
  apply Hnot, columns_to_drop_elem. by exists c.
Qed.

Lemma complete_not_null c : is_object c = false → is_number c = false → complete c.
Proof.
  destruct c as [| | |vs]; try discriminate. intros _ _.
  unfold complete, isnull_any. simpl. by induction vs.
Qed.

(** C1.  On a raw frame with distinct labels that has the column [Id] and
    keeps it through the threshold drop, the Cleaner yields a frame, and no
    cell of that frame is missing. *)
Theorem Cleaner_no_missing df :
  NoDup (names df) → "Id" ∈ names df → "Id" ∉ columns_to_drop df →
  ∃ cleaned, Cleaner df = Ret cleaned ∧ no_missing cleaned.
Proof.
  intros Hnd HId Hnot.
  pose proof (kept_NoDup _ Hnd) as Hk.
  destruct (null_columns_total (cat_columns (kept df)) (kept df) Hk) as [cn Hcn].
  { intros l (c & Hc & _)%cat_columns_elem. by eapply elem_names. }
  destruct (null_columns_total (num_columns (kept df)) (kept df) Hk) as [nn Hnn].
  { intros l (c & Hc & _)%num_columns_elem. by eapply elem_names. }
  destruct (null_columns_Ret _ _ _ Hcn) as [Hcsub Hcat].
  destruct (null_columns_Ret _ _ _ Hnn) as [Hnsub Hnum].
  assert (Hcnd : NoDup cn).
  { eapply sublist_NoDup; [|exact Hcsub]. unfold cat_columns.
    by apply (filter_names_NoDup _ (kept df)). }
  assert (Hnnd : NoDup nn).
  { eapply sublist_NoDup; [|exact Hnsub]. unfold num_columns.
    by apply (filter_names_NoDup _ (kept df)). }
  (* the loop over the categorical columns never fails *)
  destruct (for_each_update_total most_freq_imp cn (kept df) Hk Hcnd) as [filled Hf].
  { intros l [Hl (c & Hc & Hnull)]%Hcat.
    apply cat_columns_elem in Hl as (c0 & Hc0 & Hobj).
    apply getcol_Ret_elem in Hc.
    rewrite (NoDup_names_inj _ _ _ _ Hk Hc0 Hc) in Hobj.
    destruct c as [vs| | |]; try discriminate.
    pose proof (kept_has_value _ (kept_below_threshold _ _ _ Hc) Hnull) as Hv.
    destruct (most_frequent_is_Some vs Hv) as [m Hm].
    exists (ObjCol vs), (ObjCol (fill m vs)). split; [done|]. simpl. by rewrite Hm. }
  pose proof (for_each_update_spec _ _ _ _ Hk Hcnd Hf) as Sf.
  assert (Hfn : names filled = names (kept df))
    by (by eapply for_each_update_names).
  assert (Hfnd : NoDup (names filled)) by (by rewrite Hfn).
  (* a numeric column is not touched by the first loop *)
  assert (Hnumcol : ∀ l c, (l, c) ∈ kept df → is_number c = true → (l, c) ∈ filled).
  { intros l c Hin Hc. apply list_elem_of_lookup_1 in Hin as [i Hi].
    destruct (Forall2_lookup_l _ _ _ _ _ Sf Hi) as ([l' c'] & Hi' & E1 & E2).
    simpl in *. subst l'. apply list_elem_of_lookup_2 in Hi, Hi'.
    rewrite decide_False in E2; [by subst|].
    intros [(c0 & Hc0 & Hobj)%cat_columns_elem _]%Hcat.
    rewrite (NoDup_names_inj _ _ _ _ Hk Hc0 Hi) in Hobj. by destruct c. }
  (* the loop over the numeric columns never fails *)
  destruct (for_each_update_total fillna_mean nn filled Hfnd Hnnd) as [cleaned Hc].
  { intros l [Hl _]%Hnum. apply num_columns_elem in Hl as (c & Hc & Hn).
    exists c. destruct c as [|vs|vs|]; try discriminate.
    - simpl. destruct (mean vs); eauto.
    - simpl. eauto. }
  pose proof (for_each_update_spec _ _ _ _ Hfnd Hnnd Hc) as Sc.
  exists cleaned. split.
  { apply Cleaner_Ret. split; [done|]. split; [done|]. by exists cn, nn, filled. }
  intros p' [i Hi']%list_elem_of_lookup_1.
  destruct (Forall2_lookup_r _ _ _ _ _ Sc Hi') as (p1 & Hi1 & E1 & E2).
  destruct (Forall2_lookup_r _ _ _ _ _ Sf Hi1) as (p & Hi & E3 & E4).
  pose proof (list_elem_of_lookup_2 _ _ _ Hi) as Hin.
  pose proof (list_elem_of_lookup_2 _ _ _ Hi1) as Hin1.
  destruct p as [l c], p1 as [l1 c1], p' as [l' c']. simpl in *. subst l1 l'.
  pose proof (kept_below_threshold _ _ _ Hin) as Hbelow.
  assert (Hget : getcol l (kept df) = Ret c) by (by apply getcol_NoDup).
  destruct (is_object c) eqn:Hobj.
  - (* a categorical column: filled by the first loop or complete already *)
    assert (Hc1 : complete c1).
    { case_decide as Hd; [by eapply most_freq_imp_complete|]. subst c1.
      apply not_true_iff_false. intros Hnull. apply Hd, Hcat.
      split; [|by exists c]. apply cat_columns_elem. by exists c. }
    rewrite decide_False in E2; [by subst|].
    intros [(c0 & Hc0 & Hn0)%num_columns_elem _]%Hnum.
    rewrite (NoDup_names_inj _ _ _ _ Hk Hc0 Hin) in Hn0. by destruct c.
  - rewrite decide_False in E4; [subst c1|].
    2:{ intros [(c0 & Hc0 & Ho0)%cat_columns_elem _]%Hcat.
        rewrite (NoDup_names_inj _ _ _ _ Hk Hc0 Hin) in Ho0. congruence. }
    case_decide as Hd.
    + (* a numeric column with a missing cell: filled with its mean *)
      apply Hnum in Hd as [_ (c0 & Hc0 & Hnull)].
      rewrite Hget in Hc0. injection Hc0 as <-.
      eapply fillna_mean_complete; [|exact E2]. by apply kept_has_value.
    + subst c'. destruct (is_number c) eqn:Hn; [|by apply complete_not_null].
      apply not_true_iff_false. intros Hnull. apply Hd, Hnum.
      split; [|by exists c]. apply num_columns_elem. by exists c.
Qed.

Lemma sample_NoDup : NoDup (names sample).
Proof. apply (bool_decide_unpack _). vm_compute. exact I. Qed.

Lemma Cleaner_drops_by_threshold_witness :
  Cleaner sample = Ret sample_cleaned
  ∧ ("PoolQC" ∉ names sample_cleaned)
  ∧ ("Id" ∉ names sample_cleaned)
  ∧ "LotFrontage" ∈ names sample_cleaned.
Proof.
  assert (H : Cleaner sample = Ret sample_cleaned) by (vm_compute; reflexivity).
  destruct (Cleaner_drops_by_threshold sample sample_cleaned H) as (H1 & H2 & H3).
  split; [exact H|]. split; [|split; [exact H2|]].
  - apply (H1 "PoolQC" (ObjCol [None; None; None; None]) (4 # 4)%Q).
    + apply (list_elem_of_lookup_2 _ 2). reflexivity.
    + reflexivity.
    + reflexivity.
  - apply (H3 sample_NoDup "LotFrontage"
              (FloatCol [Some 65%Q; Some (161 # 2)%Q; None; Some 60%Q]) (1 # 4)%Q).
    + apply (list_elem_of_lookup_2 _ 1). reflexivity.
    + reflexivity.
    + discriminate.
    + discriminate.
Defined.

Lemma Cleaner_no_missing_witness :
  ∃ cleaned, Cleaner sample = Ret cleaned ∧ no_missing cleaned.
Proof.
  apply Cleaner_no_missing.
  - exact sample_NoDup.
  - apply (bool_decide_unpack _). vm_compute. exact I.
  - apply (bool_decide_unpack _). vm_compute. exact I.
Defined.

(** ** Cleaner: a column without any value *)

Lemma wholly_null_gt c : wholly_null c → gt threshold (isnull_mean c) = true.
Proof.
  intros (q & -> & Hq). apply gt_threshold_true. rewrite Hq. reflexivity.
Qed.

Lemma columns_to_drop_cons l c (df : frame) :
  columns_to_drop ((l, c) :: df)
  = if gt threshold (isnull_mean c) then l :: columns_to_drop df
    else columns_to_drop df.
Proof.
  unfold columns_to_drop, missing_percentages.
  rewrite fmap_cons, filter_cons. simpl.
  by destruct (gt threshold (isnull_mean c)).
Qed.

Lemma columns_to_drop_filter (P : string → Prop) `{∀ l, Decision (P l)} (df : frame) :
  columns_to_drop (filter (λ p : string * column, P p.1) df)
  = filter P (columns_to_drop df).
Proof.
  induction df as [|[l c] df IH]; [done|].
  rewrite filter_cons, columns_to_drop_cons. simpl.
  destruct (decide (P l)) as [HP|HP].
  - rewrite columns_to_drop_cons.
    destruct (gt threshold (isnull_mean c)); [|done].
    rewrite filter_cons_True by done. by f_equal.
  - destruct (gt threshold (isnull_mean c)); [|done].
    by rewrite filter_cons_False.
Qed.

Lemma threshold_drop_without label df :
  label ∈ columns_to_drop df →
  filter (λ p : string * column,
            p.1 ∉ columns_to_drop (filter (λ p : string * column, p.1 ≠ label) df))
         (filter (λ p : string * column, p.1 ≠ label) df)
  = filter (λ p : string * column, p.1 ∉ columns_to_drop df) df.
Proof.
  intros Hl.
  pose proof (columns_to_drop_filter (λ l, l ≠ label) df) as E.
  cbv beta in E. rewrite E. clear E.
  rewrite list_filter_filter. apply list_filter_iff.
  intros [l c]. simpl. rewrite list_elem_of_filter. split.
  - intros [Hn Hne] Hin. apply Hn. split; [done|]. done.
  - intros Hn. split; [|by intros ->]. intros [_ Hin]. done.
Qed.

Lemma Cleaner_after_threshold_drop df :
  Cleaner df =
  (df_dropped ← drop_columns ["Id"]
                  (filter (λ p : string * column, p.1 ∉ columns_to_drop df) df);
   cat_null_columns ← null_columns (cat_columns df_dropped) df_dropped;
   num_null_columns ← null_columns (num_columns df_dropped) df_dropped;
   df_dropped ← for_each cat_null_columns (update_column most_freq_imp) df_dropped;
   for_each num_null_columns (update_column fillna_mean) df_dropped).
Proof.
  unfold Cleaner.
  assert (E1 : drop_columns (columns_to_drop df) df
               = Ret (filter (λ p : string * column, p.1 ∉ columns_to_drop df) df)).
  { apply drop_columns_Ret. split; [apply columns_to_drop_names|done]. }
  by rewrite E1.
Qed.

(** ** Encoder: what happens to a group of columns *)

Lemma getcol_Ret_unique label df c c' :
  getcol label df = Ret c → (label, c') ∈ df → c' = c.
Proof.
  unfold getcol. intros H Hin.
  destruct (filter _ df) as [|p [|? ?]] eqn:E; try discriminate.
  injection H as <-.
  assert (Hp : (label, c') ∈ filter (λ p : string * column, p.1 = label) df)
    by (by apply list_elem_of_filter).
  rewrite E in Hp. apply list_elem_of_singleton in Hp. by subst.
Qed.

Lemma setcol_sublist label c (block df : frame) :
  label ∈ names df → block `sublist_of` df →
  (∀ p, p ∈ block → p.1 ≠ label) →
  block `sublist_of` setcol label c df.
Proof.
  intros Hin Hsub Hne. unfold setcol. rewrite decide_True by done.
  set (g := λ p : string * column, if decide (p.1 = label) then (label, c) else p).
  assert (E : g <$> block = block).
  { rewrite <- (list_fmap_id block) at 2. apply list_fmap_ext.
    intros i p Hp. unfold g. rewrite decide_False; [done|].
    by eapply Hne, list_elem_of_lookup_2. }
  rewrite <- E. by apply fmap_sublist.
Qed.

(** Columns whose labels are not in the list go through the loop as they are. *)
Lemma for_each_update_sublist f labels (block df df' : frame) :
  for_each labels (update_column f) df = Ret df' →
  block `sublist_of` df →
  (∀ p, p ∈ block → p.1 ∉ labels) →
  block `sublist_of` df'.
Proof.
  revert df. induction labels as [|l labels IH]; intros df; simpl.
  - by intros [= <-].
  - intros H Hsub Hne. inv_bind H.
    apply update_column_Ret in Ha as (c & c' & Hget & _ & ->).
    apply (IH _ H).
    + apply setcol_sublist; [|done|].
      * eapply elem_names, getcol_Ret_elem, Hget.
      * intros p Hp E. apply (Hne _ Hp). rewrite E. apply list_elem_of_here.
    + intros p Hp Hin. apply (Hne _ Hp). by apply list_elem_of_further.
Qed.

Lemma for_each_update_elem f labels (df df' : frame) label c :
  for_each labels (update_column f) df = Ret df' →
  (label, c) ∈ df → label ∉ labels → (label, c) ∈ df'.
Proof.
  intros H Hin Hl. apply singleton_sublist_l.
  eapply for_each_update_sublist; [exact H|by apply singleton_sublist_l|].
  by intros p ->%list_elem_of_singleton.
Qed.

Lemma get_dummies_Ret columns df df' :
  get_dummies columns df = Ret df' →
  ∃ blocks,
    Forall2 (λ label block, ∃ vs, getcol label df = Ret (ObjCol vs)
                                  ∧ block = dummy_columns label vs) columns blocks
    ∧ df' = filter (λ p : string * column, p.1 ∉ columns) df ++ concat blocks.
Proof.
  unfold get_dummies. intros H. inv_bind H. injection H as <-.
  apply drop_columns_Ret in Ha0 as [_ ->]. exists a. split; [|done].
  apply map_out_Ret in Ha. eapply Forall2_impl; [exact Ha|].
  intros label block Hb. simpl in Hb. inv_bind Hb.
  destruct a0 as [vs| | |]; try discriminate. injection Hb as <-. by exists vs.
Qed.



Lemma Encoder_Ret df encoded :
  Encoder df = Ret encoded →
  ∃ df1 df2 df3,
    for_each ord_enc_cols (update_column ord_enc_fit_transform) df = Ret df1 ∧
    get_dummies one_hot_enc_cols df1 = Ret df2 ∧
    for_each bin_enc_cols (update_column bin_enc_fit_transform) df2 = Ret df3 ∧
    astype_int df3 = Ret encoded.
Proof.
  unfold Encoder. intros H. inv_bind H. by exists a, a0, a1.
Qed.

(** ** Encoder: one-hot indicators *)



Lemma complete_ObjCol vs i o : complete (ObjCol vs) → vs !! i = Some o → is_Some o.
Proof.
  unfold complete, isnull_any. simpl. intros Hc Hi.
  destruct o; [eauto|]. exfalso.
  apply not_true_iff_false in Hc. apply Hc, existsb_exists.
  exists true. split; [|done]. apply list_elem_of_In, list_elem_of_fmap.
  exists None. split; [done|]. by eapply list_elem_of_lookup_2.
Qed.

Lemma prefix_label_dummy label cat :
  String.prefix (label +:+ "_") (label +:+ "_" +:+ cat) = true.
Proof.
  induction label as [|a label IH]; simpl.
  - by destruct cat.
  - destruct (Ascii.ascii_dec a a); [done|congruence].
Qed.

Lemma dummy_name_fresh (others one_hot : list string) label cat :
  forallb (λ l, forallb (λ b, negb (String.prefix (l +:+ "_") b)) others) one_hot = true →
  label ∈ one_hot → label +:+ "_" +:+ cat ∉ others.
Proof.
  intros Hall Hl Hin. rewrite forallb_forall in Hall.
  apply list_elem_of_In, Hall in Hl. rewrite forallb_forall in Hl.
  apply list_elem_of_In, Hl in Hin. by rewrite prefix_label_dummy in Hin.
Qed.



Lemma no_missing_Forall df :
  Forall (λ p : string * column, isnull_any p.2 = false) df → no_missing df.
Proof. intros H p Hp. by apply (proj1 (Forall_forall _ _) H). Qed.


(** ** Encoder: the cast to integers *)

Lemma truncate_toward_zero q : toward_zero q (truncate q).
Proof.
  destruct q as [n d]. unfold toward_zero, truncate, Qle, Qlt. simpl.
  pose proof (Z.quot_rem' n (Z.pos d)) as E.
  split; intros Hq; rewrite ?Z.mul_1_r in *.
  - assert (Hn : (0 <= n)%Z) by lia.
    pose proof (Z.rem_bound_pos n (Z.pos d) Hn ltac:(lia)) as Hr.
    pose proof (Z.quot_pos n (Z.pos d) Hn ltac:(lia)). nia.
  - assert (Hn : (n <= 0)%Z) by lia.
    pose proof (Z.rem_bound_pos_neg n (Z.pos d) ltac:(lia) Hn) as Hr. nia.
Qed.

Lemma astype_int_Ret df encoded :
  astype_int df = Ret encoded →
  Forall2 (λ p p' : string * column,
             p'.1 = p.1 ∧ astype_int_column p.2 = Ret p'.2) df encoded.
Proof.
  unfold astype_int. intros H%map_out_Ret.
  eapply Forall2_impl; [exact H|]. intros p p' Hp. simpl in Hp.
  inv_bind Hp. by injection Hp as <-.
Qed.

Lemma astype_int_column_IntCol c c' :
  astype_int_column c = Ret c' → ∃ zs, c' = IntCol zs.
Proof.
  destruct c; simpl; intros H; try discriminate.
  - inv_bind H. injection H as <-. eauto.
  - injection H as <-. eauto.
  - injection H as <-. eauto.
Qed.

Lemma astype_int_column_FloatCol vs c' :
  astype_int_column (FloatCol vs) = Ret c' →
  ∃ qs, vs = Some <$> qs ∧ c' = IntCol (truncate <$> qs).
Proof.
  simpl. intros H. inv_bind H. injection H as <-.
  apply map_out_Ret in Ha. induction Ha as [|[q|] z vs zs Hq _ (qs & -> & [= ->])].
  - by exists [].
  - injection Hq as <-. by exists (q :: qs).
  - discriminate.
Qed.

Lemma truncate_int64 q : in_int64_range q → int64 (truncate q).
Proof.
  intros [Hlo Hhi]. destruct (truncate_toward_zero q) as [Hpos Hneg].
  unfold int64. destruct (Qlt_le_dec q 0) as [Hq|Hq].
  - destruct (Hneg (Qlt_le_weak _ _ Hq)) as (Ht & _ & Hle).
    assert (H : (inject_Z (- 2 ^ 63) <= inject_Z (truncate q))%Q)
      by (by eapply Qle_trans).
    rewrite <- Zle_Qle in H. lia.
  - destruct (Hpos Hq) as (Ht & Hle & _).
    assert (H : (inject_Z (truncate q) < inject_Z (2 ^ 63))%Q)
      by (by eapply Qle_lt_trans).
    rewrite <- Zlt_Qlt in H. lia.
Qed.

(** C7.  Whenever the Encoder yields a frame: every column of it is an
    integer column; a float column that no encoder group names is there with
    each value cut to an integer, which is an [int64] when the value lies in
    the range of that type (as every float with a fractional part does); and
    the cut is toward zero. *)
Theorem Encoder_casts_to_integers df encoded :
  Encoder df = Ret encoded →
  (∀ p, p ∈ encoded → ∃ zs, p.2 = IntCol zs)
  ∧ (∀ label vs,
       (label, FloatCol vs) ∈ df →
       label ∉ ord_enc_cols ++ one_hot_enc_cols ++ bin_enc_cols →
       Forall (λ o, ∀ q, o = Some q → in_int64_range q) vs →
       ∃ qs, vs = Some <$> qs
             ∧ (label, IntCol (truncate <$> qs)) ∈ encoded
             ∧ Forall int64 (truncate <$> qs))
  ∧ (∀ q, toward_zero q (truncate q)).
Proof.
  intros (df1 & df2 & df3 & H1 & H2 & H3 & H4)%Encoder_Ret.
  pose proof (astype_int_Ret _ _ H4) as Hcast.
  split; [|split; [|apply truncate_toward_zero]].
  - intros p' [i Hi]%list_elem_of_lookup_1.
    destruct (Forall2_lookup_r _ _ _ _ _ Hcast Hi) as (p & _ & _ & Hp).
    by eapply astype_int_column_IntCol.
  - intros label vs Hin Hnot Hrange.
    rewrite !not_elem_of_app in Hnot. destruct Hnot as (Hord & Hhot & Hbin).
    assert (Hin1 : (label, FloatCol vs) ∈ df1)
      by (by eapply for_each_update_elem).
    apply get_dummies_Ret in H2 as (blocks & _ & ->).
    assert (Hin3 : (label, FloatCol vs) ∈ df3).
    { eapply for_each_update_elem; [exact H3| |done].
      apply elem_of_app. left. by apply list_elem_of_filter. }
    apply list_elem_of_lookup_1 in Hin3 as [i Hi].
    destruct (Forall2_lookup_l _ _ _ _ _ Hcast Hi) as ([l' c'] & Hi' & E1 & E2).
    simpl in *. subst l'.
    apply astype_int_column_FloatCol in E2 as (qs & -> & ->).
    exists qs. split; [done|]. split; [by eapply list_elem_of_lookup_2|].
    apply Forall_fmap, Forall_forall. intros q Hq. simpl.
    apply truncate_int64.
    apply (proj1 (Forall_forall _ _) Hrange (Some q)); [|done].
    apply list_elem_of_fmap. by exists q.
Qed.

Lemma Encoder_casts_to_integers_witness :
  (∀ p, p ∈ sample_encoded → ∃ zs, p.2 = IntCol zs)
  ∧ ("LotFrontage", IntCol [65; 80; 68; 60]%Z) ∈ sample_encoded
  ∧ Forall int64 [65; 80; 68; 60]%Z
  ∧ toward_zero (137 # 2) 68 ∧ toward_zero (- 5 # 2) (- 2).
Proof.
  destruct (Encoder_casts_to_integers sample_cleaned sample_encoded)
    as (H1 & H2 & H3); [vm_compute; reflexivity|].
  split; [exact H1|].
  destruct (H2 "LotFrontage" [Some 65%Q; Some (161 # 2)%Q; Some (137 # 2)%Q; Some 60%Q])
    as (qs & Hqs & Hin & Hint).
  - apply (list_elem_of_lookup_2 _ 0). reflexivity.
  - apply (bool_decide_unpack _). vm_compute. exact I.
  - repeat (apply Forall_cons; split;
            [intros q [= <-]; split; vm_compute; congruence|]).
    apply Forall_nil_2.
  - assert (qs = [65%Q; (161 # 2)%Q; (137 # 2)%Q; 60%Q]) as ->.
    { apply (inj (fmap Some)). by rewrite <- Hqs. }
    split; [exact Hin|]. split; [exact Hint|].
    split; [apply (H3 (137 # 2)%Q)|apply (H3 (- 5 # 2)%Q)].
Defined.

(** ** Feature Selector *)

Lemma Qgt_bool_true q t : Qgt_bool q t = true ↔ (t < q)%Q.
Proof.
  unfold Qgt_bool. rewrite negb_true_iff, <- not_true_iff_false, Qle_bool_iff.
  split; [apply Qnot_le_lt|apply Qlt_not_le].
Qed.

Lemma feature_importance_Ret forest df_encoded fi :
  feature_importance forest df_encoded = Ret fi →
  ∃ y importance,
    let X := filter (λ p : string * column, p.1 ∉ ["SalePrice"]) df_encoded in
    getcol "SalePrice" df_encoded = Ret y
    ∧ forest 1%Z X y = Ret importance
    ∧ length importance = length (names X)
    ∧ fi = sort_values (zip (names X) importance).
Proof.
  unfold feature_importance. intros H. inv_bind H.
  apply drop_columns_Ret in Ha as [_ ->].
  case_decide as Hlen; [|discriminate]. injection H as <-.
  by exists a0, a1.
Qed.

Lemma selected_features_ext
    (forest forest' : Z → frame → column → outcome (list Q)) df_encoded :
  (∀ X y, forest 1%Z X y = forest' 1%Z X y) →
  selected_features forest df_encoded = selected_features forest' df_encoded.
Proof.
  intros H. unfold selected_features, feature_importance.
  destruct (drop_columns ["SalePrice"] df_encoded) as [X| |]; [|done..]. simpl.
  destruct (getcol "SalePrice" df_encoded) as [y| |]; [|done..]. simpl.
  by rewrite H.
Qed.

(** C6.  Let a forest that is given a seed be reproducible: two fits with
    the same seed on the same data give the same importances, whatever the
    state of the global generator (the library's contract for an integer
    [random_state]).  Then two runs of the selection cell on the same encoded
    frame select the same features, because the cell seeds its forest with 1
    and draws nothing else; and a feature is selected exactly when the
    importance that the forest gives to it is above 0.001. *)
Theorem feature_selection_deterministic
    (forest_fit : option Z → frame → column → outcome (list Q) → Prop)
    df_encoded sel sel' :
  (∀ seed X y r r',
     forest_fit (Some seed) X y r → forest_fit (Some seed) X y r' → r = r') →
  selection_run forest_fit df_encoded (Ret sel) →
  selection_run forest_fit df_encoded (Ret sel') →
  sel = sel'
  ∧ ∃ y importance,
      let X := filter (λ p : string * column, p.1 ∉ ["SalePrice"]) df_encoded in
      getcol "SalePrice" df_encoded = Ret y
      ∧ forest_fit (Some 1%Z) X y (Ret importance)
      ∧ ∀ label, label ∈ sel ↔
          ∃ v, (label, v) ∈ zip (names X) importance ∧ (importance_threshold < v)%Q.
Proof.
  intros Hseed (forest & Hfit & H) (forest' & Hfit' & H'). split.
  - rewrite (selected_features_ext forest forest') in H.
    + rewrite <- H in H'. by injection H' as ->.
    + intros X y. by eapply Hseed.
  - symmetry in H. unfold selected_features in H. inv_bind H. injection H as <-.
    apply feature_importance_Ret in Ha as (y & importance & Hy & Hf & _ & ->).
    exists y, importance. split; [done|]. split; [rewrite <- Hf; apply Hfit|].
    intros label. rewrite list_elem_of_fmap. split.
    + intros ([l v] & -> & [Hv Hin]%list_elem_of_filter). exists v.
      unfold sort_values in Hin. rewrite merge_sort_Permutation in Hin.
      split; [done|]. by apply Qgt_bool_true, Is_true_true.
    + intros (v & Hin & Hv). exists (label, v). split; [done|].
      apply list_elem_of_filter. split; [by apply Is_true_true, Qgt_bool_true|].
      unfold sort_values. by rewrite merge_sort_Permutation.
Qed.

Lemma feature_selection_deterministic_witness :
  sample_selected = sample_selected
  ∧ ∃ y importance,
      let X := filter (λ p : string * column, p.1 ∉ ["SalePrice"]) sample_encoded in
      getcol "SalePrice" sample_encoded = Ret y
      ∧ sample_forest_fit (Some 1%Z) X y (Ret importance)
      ∧ ∀ label, label ∈ sample_selected ↔
          ∃ v, (label, v) ∈ zip (names X) importance ∧ (importance_threshold < v)%Q.
Proof.
  apply (feature_selection_deterministic sample_forest_fit sample_encoded).
  - intros seed X y r r' H H'. simpl in H, H'. congruence.
  - exists striped_importances. split; [done|]. vm_compute. reflexivity.
  - exists striped_importances. split; [done|]. vm_compute. reflexivity.
Defined.

(** ** Feature Selector: the columns of the selected frame *)

Lemma select_columns_Ret labels df df' :
  select_columns labels df = Ret df' →
  names df' = labels ∧ ∀ p, p ∈ df' → p ∈ df.
Proof.
  unfold select_columns. intros H%map_out_Ret.
  induction H as [|l [l' c] labels df' Hl _ [IH1 IH2]]; [split|].
  - done.
  - by intros p ?%elem_of_nil.
  - simpl in Hl. inv_bind Hl. injection Hl as <- <-. split.
    + unfold names in *. rewrite fmap_cons. simpl. by f_equal.
    + intros p [->|Hp]%elem_of_cons; [|by apply IH2]. by apply getcol_Ret_elem.
Qed.

Lemma FeatureSelector_Ret forest df_encoded df_final :
  FeatureSelector forest df_encoded = Ret df_final →
  ∃ sel, selected_features forest df_encoded = Ret sel
         ∧ names df_final = sel ++ ["SalePrice"]
         ∧ ∀ p, p ∈ df_final → p ∈ df_encoded.
Proof.
  unfold FeatureSelector. intros H. inv_bind H. injection H as <-.
  apply select_columns_Ret in Ha0 as [E1 I1], Ha1 as [E2 I2].
  exists a. split; [done|]. split.
  - unfold names in *. by rewrite fmap_app, E1, E2.
  - intros p [?|?]%elem_of_app; auto.
Qed.

Lemma selected_features_subset forest df_encoded sel :
  selected_features forest df_encoded = Ret sel →
  sel ⊆ names (filter (λ p : string * column, p.1 ∉ ["SalePrice"]) df_encoded).
Proof.
  intros H. unfold selected_features in H. inv_bind H. injection H as <-.
  apply feature_importance_Ret in Ha as (y & importance & _ & _ & Hlen & ->).
  intros l ([l' v] & -> & [_ Hin]%list_elem_of_filter)%list_elem_of_fmap.
  unfold sort_values in Hin. rewrite merge_sort_Permutation in Hin.
  by apply elem_of_zip_l in Hin.
Qed.

Lemma names_filter_label (labels : list string) (df : frame) l :
  l ∈ names (filter (λ p : string * column, p.1 ∉ labels) df) ↔
  l ∈ names df ∧ l ∉ labels.
Proof.
  unfold names. rewrite !list_elem_of_fmap. split.
  - intros ([l' c] & -> & [Hn Hin]%list_elem_of_filter). split; [|done].
    by exists (l', c).
  - intros [([l' c] & -> & Hin) Hn]. exists (l', c). split; [done|].
    by apply list_elem_of_filter.
Qed.

Lemma astype_int_names df encoded : astype_int df = Ret encoded → names encoded = names df.
Proof.
  intros H%astype_int_Ret. unfold names.
  induction H as [|p p' ? ? [Hp _] _ IH]; [done|].
  rewrite !fmap_cons. by f_equal.
Qed.

Lemma Encoder_names df encoded l :
  Encoder df = Ret encoded → l ∈ names encoded →
  l ∈ names df ∨ ∃ label cat, label ∈ one_hot_enc_cols ∧ l = label +:+ "_" +:+ cat.
Proof.
  intros (df1 & df2 & df3 & H1 & H2 & H3 & H4)%Encoder_Ret Hl.
  rewrite (astype_int_names _ _ H4), (for_each_update_names _ _ _ _ H3) in Hl.
  apply get_dummies_Ret in H2 as (blocks & Hb & ->).
  unfold names in Hl. rewrite fmap_app in Hl. apply elem_of_app in Hl as [Hl|Hl].
  - left. apply names_filter_label in Hl as [Hl _].
    by rewrite (for_each_update_names _ _ _ _ H1) in Hl.
  - right. apply list_elem_of_fmap in Hl as ([l' c] & -> & Hin).
    apply list_elem_of_In, in_concat in Hin as (block & Hblock & Hin).
    apply list_elem_of_In in Hblock, Hin.
    apply list_elem_of_lookup_1 in Hblock as [k Hk].
    destruct (Forall2_lookup_r _ _ _ _ _ Hb Hk) as (label & Hlabel & vs & _ & ->).
    apply list_elem_of_fmap in Hin as (cat & [= -> _] & _).
    exists label, cat. split; [|done]. by eapply list_elem_of_lookup_2.
Qed.

(** ** Which frame each model is fitted on *)

Lemma take_frame_rows_names idx df df' :
  take_frame_rows idx df = Ret df' → names df' = names df.
Proof.
  unfold take_frame_rows. intros H%map_out_Ret. unfold names.
  induction H as [|p p' ? ? Hp _ IH]; [done|].
  simpl in Hp. inv_bind Hp. injection Hp as <-.
  rewrite !fmap_cons. by f_equal.
Qed.

Lemma split_dataset_Ret df target_var d s :
  split_dataset df target_var d = Ret s →
  ∃ target,
    getcol target_var df = Ret target
    ∧ take_frame_rows (ind_train d)
        (filter (λ p : string * column, p.1 ∉ [target_var]) df) = Ret (X_train s)
    ∧ take_frame_rows (ind_test d)
        (filter (λ p : string * column, p.1 ∉ [target_var]) df) = Ret (X_test s)
    ∧ take_rows (ind_train d) target = Ret (y_train s)
    ∧ take_rows (ind_test d) target = Ret (y_test s).
Proof.
  unfold split_dataset. intros H. inv_bind H. injection H as <-.
  apply drop_columns_Ret in Ha as [_ ->]. by exists a0.
Qed.

Lemma fitted_on_split_names m df :
  fitted_on_split_of m df →
  names (fit_X m) = names (filter (λ p : string * column, p.1 ∉ ["SalePrice"]) df).
Proof.
  intros (d & s & Hs & -> & _).
  apply split_dataset_Ret in Hs as (target & _ & HX & _).
  by apply take_frame_rows_names in HX.
Qed.

Lemma train_Ret score s :
  (∀ m, train_lr score s = Ret m → fit_X m = X_train s ∧ fit_y m = y_train s)
  ∧ (∀ m, train_rf score s = Ret m → fit_X m = X_train s ∧ fit_y m = y_train s)
  ∧ (∀ m, train_xgb score s = Ret m → fit_X m = X_train s ∧ fit_y m = y_train s)
  ∧ (∀ m, train_cat score s = Ret m → fit_X m = X_train s ∧ fit_y m = y_train s).
Proof.
  unfold train_lr, train_rf, train_xgb, train_cat.
  repeat split; inv_bind H; by injection H as <-.
Qed.

(** C5, as the notebook has it.  The cleaned frame goes to the Encoder, the
    encoded frame to the Feature Selector; the logistic, forest and
    gradient-boosting models are fitted on a split of the feature-selected
    frame.  The cells of the categorical-aware model read the cleaned frame:
    whenever they run in the kernel that the cells before them leave, that
    model is fitted on a split of the cleaned frame. *)
Theorem stages_feed_the_next
    (forest : Z → frame → column → outcome (list Q))
    (score : grid_search → estimator → frame → column → Q)
    (predict : fitted → frame → outcome column) df d k :
  model_cells forest score predict df d = Ret k →
  Cleaner df = Ret (df_dropped k)
  ∧ Encoder (df_dropped k) = Ret (df_encoded k)
  ∧ FeatureSelector forest (df_encoded k) = Ret (df_final k)
  ∧ fitted_on_split_of (best_lr_model k) (df_final k)
  ∧ fitted_on_split_of (best_rf_model k) (df_final k)
  ∧ fitted_on_split_of (best_xgb_model k) (df_final k)
  ∧ ∀ d_01 k_01,
      catboost_cells score predict (df_dropped k) d_01 = Ret k_01 →
      fitted_on_split_of (best_cat_model k_01) (df_dropped k).
Proof.
  unfold model_cells. intros H.
  apply bind_Ret in H as (cleaned & Hc & H).
  apply bind_Ret in H as ([] & _ & H).
  apply bind_Ret in H as (encoded & He & H).
  apply bind_Ret in H as (final & Hf & H).
  apply bind_Ret in H as (s & Hs & H).
  apply bind_Ret in H as (lr & Hlr & H).
  apply bind_Ret in H as (rf & Hrf & H).
  apply bind_Ret in H as (xgb & Hxgb & H).
  inv_bind H. injection H as <-. cbn [df_dropped df_encoded df_final
    best_lr_model best_rf_model best_xgb_model].
  destruct (train_Ret score s) as (Tlr & Trf & Txgb & _).
  split; [done|]. split; [done|]. split; [done|].
  split; [exists d, s; split; [done|]; by apply Tlr|].
  split; [exists d, s; split; [done|]; by apply Trf|].
  split; [exists d, s; split; [done|]; by apply Txgb|].
  intros d_01 k_01 H01. unfold catboost_cells in H01.
  apply bind_Ret in H01 as (s_01 & Hs_01 & H01).
  apply bind_Ret in H01 as (cat & Hcat & H01).
  inv_bind H01. injection H01 as <-. cbn [best_cat_model].
  destruct (train_Ret score s_01) as (_ & _ & _ & Tcat).
  exists d_01, s_01. split; [done|]. by apply Tcat.
Qed.

Lemma stages_feed_the_next_witness :
  ∃ k, model_cells striped_importances flat_score constant_predict houses houses_draw
       = Ret k
       ∧ fitted_on_split_of (best_lr_model k) (df_final k)
       ∧ fitted_on_split_of (best_rf_model k) (df_final k)
       ∧ fitted_on_split_of (best_xgb_model k) (df_final k)
       ∧ ∀ d_01 k_01,
           catboost_cells flat_score constant_predict (df_dropped k) d_01 = Ret k_01 →
           fitted_on_split_of (best_cat_model k_01) (df_dropped k).
Proof.
  eexists. split; [vm_compute; reflexivity|].
  eapply (stages_feed_the_next striped_importances flat_score constant_predict
            houses houses_draw).
  vm_compute. reflexivity.
Defined.

(** C5, as claimed, fails: on the ten houses the cells of the
    categorical-aware model, run in the kernel that the cells before them
    leave, fit it on a frame that is not a split of the feature-selected
    frame. *)
Lemma catboost_not_fitted_on_selected_frame :
  ∃ k k_01,
    model_cells striped_importances flat_score constant_predict houses houses_draw
    = Ret k
    ∧ catboost_cells flat_score constant_predict (df_dropped k) houses_draw_01 = Ret k_01
    ∧ ¬ fitted_on_split_of (best_cat_model k_01) (df_final k).
Proof.
  eexists. eexists. split; [vm_compute; reflexivity|].
  split; [vm_compute; reflexivity|].
  intros H%fitted_on_split_names. vm_compute in H. discriminate H.
Qed.

(** ** Trainer: the parameters of the final models *)



Lemma foldl_choice {A} (better : A → A → bool) (c : A) (cs : list A) :
  foldl (λ best c', if better c' best then c' else best) c cs ∈ c :: cs.
Proof.
  revert c. induction cs as [|c' cs IH]; intros c; simpl.
  - apply list_elem_of_here.
  - destruct (better c' c).
    + apply list_elem_of_further, IH.
    + specialize (IH c). apply elem_of_cons in IH as [->|?].
      * apply list_elem_of_here.
      * by do 2 apply list_elem_of_further.
Qed.

Lemma best_params_Ret score gs X y params :
  best_params_ score gs X y = Ret params →
  check_cv (gs_cv gs) (est_family (gs_estimator gs)) y = Ret ()
  ∧ ∃ c cs,
      ParameterGrid (gs_param_grid gs) = c :: cs
      ∧ params = foldl (λ best c',
                   if Qgt_bool (score gs (set_params (gs_estimator gs) c') X y)
                               (score gs (set_params (gs_estimator gs) best) X y)
                   then c' else best) c cs.
Proof.
  unfold best_params_. intros H. apply bind_Ret in H as ([] & Hcv & H).
  split; [done|].
  destruct (ParameterGrid (gs_param_grid gs)) as [|c cs]; [discriminate|].
  injection H as <-. by exists c, cs.
Qed.

Lemma best_params_in_grid score gs X y params :
  best_params_ score gs X y = Ret params → params ∈ ParameterGrid (gs_param_grid gs).
Proof.
  intros (_ & c & cs & -> & ->)%best_params_Ret.
  apply (foldl_choice (λ c' best, Qgt_bool _ _)).
Qed.




Lemma train_cat_Ret score s m :
  train_cat score s = Ret m →
  ∃ params,
    params ∈ ParameterGrid param_grid_cat
    ∧ params !! "cat_features" = None
    ∧ m = Fit (Estimator CatBoostRegressor
                 (<["cat_features" := PIndices (categorical_features_indices (X_train s))]>
                    params))
              (X_train s) (y_train s).
Proof.
  unfold train_cat. intros H.
  apply bind_Ret in H as (params & Hp & H).
  apply bind_Ret in H as (kwargs & Hk & H).
  apply best_params_in_grid in Hp.
  unfold with_cat_features in Hk.
  destruct (params !! "cat_features") eqn:E; [discriminate|].
  exists params. split; [exact Hp|]. split; [exact E|]. congruence.
Qed.



(** ** Evaluator *)

Lemma notebook_globals_unbound {num} name :
  name ∉ notebook_names → (notebook_globals : namespace num) !! name = None.
Proof.
  intros H. unfold notebook_globals. apply not_elem_of_list_to_map_1.
  rewrite <- list_fmap_compose. by rewrite list_fmap_id.
Qed.

(** None of the four functions that [eval_metrics] calls is bound by the
    notebook. *)
Lemma metrics_not_imported :
  Forall (λ name, name ∉ notebook_names)
         ["mean_absolute_error"; "mean_squared_error"; "sqrt"; "r2_score"].
Proof. apply (bool_decide_unpack _). vm_compute. exact I. Qed.

(** C8, on the notebook as it is.  Whatever the two vectors, the call of
    [eval_metrics] stops at its first line with a [NameError]: the metric
    functions are never imported, and no metric is printed. *)
Theorem eval_metrics_NameError {num} (y_test pred : list num) :
  eval_metrics notebook_globals y_test pred = Raise (NameError "mean_absolute_error").
Proof.
  unfold eval_metrics, call2.
  rewrite (notebook_globals_unbound "mean_absolute_error"); [done|].
  apply (bool_decide_unpack _). vm_compute. exact I.
Qed.

Example eval_metrics_one_house :
  eval_metrics notebook_globals [208500%Z] [200000%Z]
  = Raise (NameError "mean_absolute_error").
Proof.
  unfold eval_metrics, call2.
  rewrite (notebook_globals_unbound "mean_absolute_error"); [done|].
  pose proof metrics_not_imported as H. apply Forall_cons in H as [H _]. exact H.
Qed.

(** With the four names bound to functions that return, the same code
    prints four values, the third being [sqrt] of the second, and it does so
    as a function of its arguments. *)
Lemma eval_metrics_bound {num} (globals : namespace num) mae mse sqrt r2
    (y_test pred : list num) a b c d :
  globals !! "mean_absolute_error" = Some (Function2 mae) →
  globals !! "mean_squared_error" = Some (Function2 mse) →
  globals !! "sqrt" = Some (Function1 sqrt) →
  globals !! "r2_score" = Some (Function2 r2) →
  mae y_test pred = Ret a → mse y_test pred = Ret b →
  sqrt b = Ret c → r2 y_test pred = Ret d →
  eval_metrics globals y_test pred
  = Ret [("Mean Absolute Error (MAE)", a);
         ("Mean Squared Error (MSE)", b);
         ("Root Mean Squared Error (RMSE)", c);
         ("R^2 Score", d)].
Proof.
  intros G1 G2 G3 G4 E1 E2 E3 E4. unfold eval_metrics, call2, call1.
  rewrite G1, E1. simpl. rewrite G2, E2. simpl. rewrite G3, E3. simpl.
  by rewrite G4, E4.
Qed.

(** * Further properties *)

(** ** The run of the whole notebook *)

(** X20.  A run of the whole notebook never gets to its end.  Whenever the
    cells from the Cleaner to the predictions of the three models have run,
    the first evaluation cell stops the run with the [NameError] of
    [eval_metrics]; the cells of the categorical-aware model are not reached,
    and the evaluation that follows them stops in the same way. *)
Theorem notebook_stops_at_evaluation
    (forest : Z → frame → column → outcome (list Q))
    (score : grid_search → estimator → frame → column → Q)
    (predict : fitted → frame → outcome column) df d d_01 k :
  model_cells forest score predict df d = Ret k →
  evaluation_cells k = Raise (NameError "mean_absolute_error")
  ∧ notebook forest score predict df d d_01 = Raise (NameError "mean_absolute_error")
  ∧ ∀ k_01, catboost_evaluation k_01 = Raise (NameError "mean_absolute_error").
Proof.
  intros H.
  assert (E : ∀ a b : list scalar,
            eval_metrics notebook_globals a b = Raise (NameError "mean_absolute_error")).
  { intros a b. unfold eval_metrics, call2.
    rewrite (notebook_globals_unbound "mean_absolute_error"); [done|].
    pose proof metrics_not_imported as F. apply Forall_cons in F as [F _]. exact F. }
  assert (Ek : evaluation_cells k = Raise (NameError "mean_absolute_error")).
  { unfold evaluation_cells. cbv zeta. by rewrite E. }
  split; [done|]. split; [|intros k_01; unfold catboost_evaluation; apply E].
  unfold notebook. rewrite H. cbn [mbind outcome_bind]. by rewrite Ek.
Qed.

Lemma notebook_stops_at_evaluation_witness :
  notebook striped_importances flat_score constant_predict houses houses_draw houses_draw_01
  = Raise (NameError "mean_absolute_error").
Proof.
  eapply (notebook_stops_at_evaluation striped_importances flat_score constant_predict
            houses houses_draw houses_draw_01).
  vm_compute. reflexivity.
Defined.

(** X21.  The plots of a group of columns are placed on a grid of 10 × 4.
    On a cleaned frame with rows and a numeric column, the plotting cells
    raise [ValueError] exactly when more than 40 numeric or more than 40
    categorical columns are left; the run of the notebook then stops there,
    before the Encoder. *)
Theorem Visualizer_grid
    (forest : Z → frame → column → outcome (list Q))
    (score : grid_search → estimator → frame → column → Q)
    (predict : fitted → frame → outcome column) df cleaned d d_01 :
  Cleaner df = Ret cleaned →
  Forall (λ p : string * column, 0 < col_len p.2) cleaned →
  num_columns cleaned ≠ [] →
  (length (num_columns cleaned) ≤ 40 ∧ length (cat_columns cleaned) ≤ 40 →
   Visualizer cleaned = Ret ())
  ∧ (40 < length (num_columns cleaned) ∨ 40 < length (cat_columns cleaned) →
     Visualizer cleaned = Raise ValueError
     ∧ notebook forest score predict df d d_01 = Raise ValueError).
Proof.
  intros Hc Hrows Hnum.
  assert (E : Visualizer cleaned
              = (_ ← subplots (num_columns cleaned);
                 _ ← subplots (cat_columns cleaned);
                 subplots (num_columns cleaned))).
  { unfold Visualizer. by rewrite decide_True. }
  split.
  - intros [Hn Hcat]. rewrite E. unfold subplots. by rewrite !decide_True.
  - intros Hmany.
    assert (Hv : Visualizer cleaned = Raise ValueError).
    { rewrite E. unfold subplots.
      destruct (decide (length (num_columns cleaned) ≤ 40)); [|done].
      rewrite decide_False by lia. done. }
    split; [done|]. unfold notebook, model_cells. rewrite Hc.
    cbn [mbind outcome_bind]. by rewrite Hv.
Qed.

Lemma Visualizer_grid_witness :
  ∃ cleaned,
    Cleaner wide = Ret cleaned
    ∧ Visualizer cleaned = Raise ValueError
    ∧ notebook striped_importances flat_score constant_predict wide
               houses_draw houses_draw_01 = Raise ValueError.
Proof.
  eexists. split; [vm_compute; reflexivity|].
  eapply (Visualizer_grid striped_importances flat_score constant_predict wide).
  - vm_compute. reflexivity.
  - apply (bool_decide_unpack _). vm_compute. exact I.
  - vm_compute. discriminate.
  - right. vm_compute. lia.
Defined.

(** ** Error behaviour of the stages *)

Lemma drop_columns_KeyError label (df : frame) :
  label ∉ names df → drop_columns [label] df = Raise (KeyError label).
Proof. intros H. unfold drop_columns. by rewrite filter_cons_True. Qed.

(** X1.  Without a column [Id], or with an [Id] column that goes in the
    threshold drop, the Cleaner stops with [KeyError] on [Id]. *)
Theorem Cleaner_KeyError_Id df :
  "Id" ∉ names df ∨ "Id" ∈ columns_to_drop df →
  Cleaner df = Raise (KeyError "Id").
Proof.
  intros H. rewrite Cleaner_after_threshold_drop.
  rewrite drop_columns_KeyError; [done|].
  intros [Hin Hn]%names_filter_label. by destruct H.
Qed.

Lemma Cleaner_KeyError_Id_witness :
  Cleaner [("Id", FloatCol [None; None; Some 3%Q]); ("SalePrice", IntCol [1; 2; 3]%Z)]
  = Raise (KeyError "Id").
Proof.
  apply Cleaner_KeyError_Id. right.
  apply (bool_decide_unpack _). vm_compute. exact I.
Defined.

(** X2.  The Cleaner does not run on its own result: a cleaned frame has no
    [Id] column left to drop. *)
Theorem Cleaner_twice df cleaned :
  Cleaner df = Ret cleaned → Cleaner cleaned = Raise (KeyError "Id").
Proof.
  intros H. rewrite Cleaner_after_threshold_drop.
  rewrite drop_columns_KeyError; [done|].
  intros [Hin _]%names_filter_label. revert Hin.
  rewrite (Cleaner_names _ _ H).
  intros [c Hc]%names_elem. by apply kept_elem in Hc as (_ & _ & ?).
Qed.

Lemma Cleaner_twice_witness : Cleaner sample_cleaned = Raise (KeyError "Id").
Proof. apply (Cleaner_twice sample). vm_compute. reflexivity. Defined.

(** X3.  On an encoded frame without the target column the Feature Selector
    stops with [KeyError] on [SalePrice], before any forest is fitted. *)
Theorem FeatureSelector_KeyError_target
    (forest : Z → frame → column → outcome (list Q)) df_encoded :
  "SalePrice" ∉ names df_encoded →
  FeatureSelector forest df_encoded = Raise (KeyError "SalePrice").
Proof.
  intros H. unfold FeatureSelector, selected_features, feature_importance.
  by rewrite drop_columns_KeyError.
Qed.

Lemma FeatureSelector_KeyError_target_witness :
  FeatureSelector striped_importances [("LotFrontage", IntCol [65; 80]%Z)]
  = Raise (KeyError "SalePrice").
Proof.
  apply FeatureSelector_KeyError_target.
  apply (bool_decide_unpack _). vm_compute. exact I.
Defined.

(** X4.  [split_dataset] stops with [KeyError] on the target when the frame
    does not have it. *)
Theorem split_dataset_KeyError df target_var d :
  target_var ∉ names df →
  split_dataset df target_var d = Raise (KeyError target_var).
Proof. intros H. unfold split_dataset. by rewrite drop_columns_KeyError. Qed.

Lemma split_dataset_KeyError_witness :
  split_dataset [("LotFrontage", IntCol [65; 80]%Z)] "SalePrice" (Draw [1] [0])
  = Raise (KeyError "SalePrice").
Proof.
  apply split_dataset_KeyError.
  apply (bool_decide_unpack _). vm_compute. exact I.
Defined.

(** ** Cleaner: imputation touches missing cells only *)

Lemma fills_refl {A} (vs : list (option A)) : fills vs vs.
Proof. apply Forall_Forall2_diag, Forall_forall. auto. Qed.

Lemma fills_trans {A} (vs1 vs2 vs3 : list (option A)) :
  fills vs1 vs2 → fills vs2 vs3 → fills vs1 vs3.
Proof.
  unfold fills. intros H. revert vs3.
  induction H as [|o1 o2 vs1 vs2 H12 _ IH]; intros vs3 H; inversion H; subst.
  - constructor.
  - constructor; [|by apply IH].
    destruct H12 as [-> | ->]; [by left|done].
Qed.

Lemma fills_fill {A} (m : A) vs : fills vs (fill m vs).
Proof.
  unfold fills, fill. apply Forall2_fmap_r, Forall_Forall2_diag, Forall_forall.
  intros [v|] _; auto.
Qed.

Lemma only_fills_refl c : only_fills c c.
Proof. destruct c; simpl; auto using fills_refl. Qed.

Lemma only_fills_trans c1 c2 c3 :
  only_fills c1 c2 → only_fills c2 c3 → only_fills c1 c3.
Proof.
  destruct c1, c2, c3; simpl; try done; eauto using fills_trans; congruence.
Qed.

Lemma most_freq_imp_only_fills c c' : most_freq_imp c = Ret c' → only_fills c c'.
Proof.
  destruct c as [vs| | |]; simpl; try discriminate.
  destruct (most_frequent vs); [|discriminate].
  intros [= <-]. apply fills_fill.
Qed.

Lemma fillna_mean_only_fills c c' : fillna_mean c = Ret c' → only_fills c c'.
Proof.
  destruct c as [|vs|vs|]; simpl; try discriminate.
  - destruct (mean vs); intros [= <-]; [apply fills_fill|apply fills_refl].
  - by intros [= <-].
Qed.

Lemma updated_only_fills f labels p p' :
  (∀ c c', f c = Ret c' → only_fills c c') →
  updated f labels p p' → p'.1 = p.1 ∧ only_fills p.2 p'.2.
Proof.
  intros Hf [E H]. split; [done|].
  case_decide; [by apply Hf|]. rewrite H. apply only_fills_refl.
Qed.

Lemma Cleaner_fills df cleaned :
  NoDup (names df) → Cleaner df = Ret cleaned →
  Forall2 (λ p p' : string * column, p'.1 = p.1 ∧ only_fills p.2 p'.2)
          (kept df) cleaned.
Proof.
  intros Hnd (_ & _ & cn & nn & filled & Hcn & Hnn & Hf & Hc)%Cleaner_Ret.
  pose proof (kept_NoDup _ Hnd) as Hk.
  destruct (null_columns_Ret _ _ _ Hcn) as [Hcsub _].
  destruct (null_columns_Ret _ _ _ Hnn) as [Hnsub _].
  assert (Hcnd : NoDup cn).
  { eapply sublist_NoDup; [|exact Hcsub]. unfold cat_columns.
    by apply (filter_names_NoDup _ (kept df)). }
  assert (Hnnd : NoDup nn).
  { eapply sublist_NoDup; [|exact Hnsub]. unfold num_columns.
    by apply (filter_names_NoDup _ (kept df)). }
  pose proof (for_each_update_spec _ _ _ _ Hk Hcnd Hf) as Sf.
  assert (Hfnd : NoDup (names filled)).
  { by rewrite (for_each_update_names _ _ _ _ Hf). }
  pose proof (for_each_update_spec _ _ _ _ Hfnd Hnnd Hc) as Sc.
  apply Forall2_same_length_lookup. split.
  { rewrite (Forall2_length _ _ _ Sf). by apply Forall2_length in Sc. }
  intros i p p' Hp Hp'.
  destruct (Forall2_lookup_l _ _ _ _ _ Sf Hp) as (p1 & Hp1 & U1).
  pose proof (Forall2_lookup_lr _ _ _ _ _ _ Sc Hp1 Hp') as U2.
  apply (updated_only_fills _ _ _ _ most_freq_imp_only_fills) in U1 as [E1 F1].
  apply (updated_only_fills _ _ _ _ fillna_mean_only_fills) in U2 as [E2 F2].
  split; [congruence|]. by eapply only_fills_trans.
Qed.

(** X5.  The cleaned frame is the raw frame without the dropped columns,
    column for column: same labels in the same order, same dtype, same number
    of rows, and every cell that was not missing is as it was. *)
Theorem Cleaner_only_fills df cleaned :
  NoDup (names df) → Cleaner df = Ret cleaned →
  Forall2 (λ p p' : string * column, p'.1 = p.1 ∧ only_fills p.2 p'.2)
          (kept df) cleaned.
Proof. apply Cleaner_fills. Qed.

(** So the groups of columns that the notebook computes before it imputes,
    and goes through when it plots, are those of the cleaned frame. *)
Lemma only_fills_dtype c c' :
  only_fills c c' → is_object c' = is_object c ∧ is_number c' = is_number c.
Proof. destruct c, c'; simpl; done. Qed.

Lemma Cleaner_column_groups df cleaned :
  NoDup (names df) → Cleaner df = Ret cleaned →
  cat_columns cleaned = cat_columns (kept df)
  ∧ num_columns cleaned = num_columns (kept df).
Proof.
  intros Hnd Hc. pose proof (Cleaner_fills _ _ Hnd Hc) as H.
  clear Hnd Hc. unfold cat_columns, num_columns.
  induction H as [|p p' l l' [E F] _ [IH1 IH2]]; [done|].
  apply only_fills_dtype in F as [Fo Fn]. rewrite !filter_cons, Fo, Fn.
  split.
  - destruct (is_object p.2); simpl; [|done]. by f_equal.
  - destruct (is_number p.2); simpl; [|done]. by f_equal.
Qed.

Lemma Cleaner_only_fills_witness :
  Forall2 (λ p p' : string * column, p'.1 = p.1 ∧ only_fills p.2 p'.2)
          (kept sample) sample_cleaned.
Proof.
  apply Cleaner_only_fills; [exact sample_NoDup|]. vm_compute. reflexivity.
Defined.

(** ** Cleaner: the values that are filled in *)

Lemma levels_sorted vs : StronglySorted String.le (levels vs).
Proof. unfold levels. apply StronglySorted_merge_sort; apply _. Qed.

Lemma most_frequent_scan vs seen rest b :
  StronglySorted String.le (seen ++ rest) → leads vs seen b →
  ∃ m, foldl (λ best v,
                match best with
                | None => Some v
                | Some b => if decide (occurrences b vs < occurrences v vs)
                            then Some v else Some b
                end) (Some b) rest = Some m
       ∧ leads vs (seen ++ rest) m.
Proof.
  revert seen b. induction rest as [|w rest IH]; intros seen b Hs Hb.
  - exists b. by rewrite app_nil_r.
  - simpl. replace (seen ++ w :: rest) with ((seen ++ [w]) ++ rest) in *
      by (by rewrite <- app_assoc).
    assert (Hw : ∀ v, v ∈ seen → String.le v w).
    { intros v Hv. apply StronglySorted_app_1_l in Hs.
      eapply StronglySorted_app_1_elem_of; [exact Hs|done|apply list_elem_of_here]. }
    destruct Hb as (Hin & Hmax & Htie).
    case_decide as Hlt; apply IH; try done.
    + split; [|split].
      * apply elem_of_app. right. apply list_elem_of_here.
      * intros v [Hv| ->%list_elem_of_singleton]%elem_of_app; [|done].
        specialize (Hmax v Hv). lia.
      * intros v [Hv| ->%list_elem_of_singleton]%elem_of_app; [|done].
        specialize (Hmax v Hv). lia.
    + split; [|split].
      * apply elem_of_app. by left.
      * intros v [Hv| ->%list_elem_of_singleton]%elem_of_app; [by apply Hmax|lia].
      * intros v [Hv| ->%list_elem_of_singleton]%elem_of_app; [by apply Htie|].
        intros _. by apply Hw.
Qed.

Lemma occurrences_absent v vs : Some v ∉ vs → occurrences v vs = 0.
Proof.
  intros H. unfold occurrences.
  destruct (filter (λ o, o = Some v) vs) as [|o l] eqn:E; [done|].
  assert (Ho : o ∈ filter (λ o, o = Some v) vs) by (rewrite E; apply list_elem_of_here).
  apply list_elem_of_filter in Ho as [-> Ho]. done.
Qed.

(** X6.  The value that the most-frequent imputation fills in is a value of
    the column, no value of the column occurs more often, and among the
    values that occur as often it is the smallest. *)
Theorem most_frequent_spec vs m :
  most_frequent vs = Some m →
  Some m ∈ vs
  ∧ (∀ v, occurrences v vs ≤ occurrences m vs)
  ∧ (∀ v, Some v ∈ vs → occurrences v vs = occurrences m vs → String.le m v).
Proof.
  unfold most_frequent. intros H.
  pose proof (levels_sorted vs) as Hs.
  assert (Hl : ∀ v, v ∈ levels vs ↔ Some v ∈ vs) by (intros; apply levels_elem).
  destruct (levels vs) as [|b rest]; [discriminate|]. simpl in H.
  destruct (most_frequent_scan vs [b] rest b Hs) as (m' & Hm' & Hin & Hmax & Htie).
  { split; [apply list_elem_of_here|].
    split; intros v ->%list_elem_of_singleton; done. }
  rewrite H in Hm'. injection Hm' as <-. simpl in *.
  split; [by apply Hl|]. split.
  - intros v. destruct (decide (Some v ∈ vs)) as [Hv|Hv].
    + by apply Hmax, Hl.
    + rewrite (occurrences_absent _ _ Hv). lia.
  - intros v Hv. by apply Htie, Hl.
Qed.

Lemma most_frequent_spec_witness :
  Some "TA" ∈ [Some "Gd"; Some "TA"; None; Some "TA"]
  ∧ (∀ v, occurrences v [Some "Gd"; Some "TA"; None; Some "TA"]
          ≤ occurrences "TA" [Some "Gd"; Some "TA"; None; Some "TA"])
  ∧ (∀ v, Some v ∈ [Some "Gd"; Some "TA"; None; Some "TA"] →
          occurrences v [Some "Gd"; Some "TA"; None; Some "TA"]
          = occurrences "TA" [Some "Gd"; Some "TA"; None; Some "TA"] →
          String.le "TA" v).
Proof. apply most_frequent_spec. vm_compute. reflexivity. Defined.

(** A tie goes to the smaller value. *)
Example most_frequent_tie : most_frequent [Some "b"; Some "a"; None] = Some "a".
Proof. vm_compute. reflexivity. Qed.

(** ** Encoder: the listed columns *)

Lemma filter_label_setcol_ne label l c (df : frame) :
  l ≠ label →
  filter (λ p : string * column, p.1 = label) (setcol l c df)
  = filter (λ p : string * column, p.1 = label) df.
Proof.
  intros Hne. unfold setcol. case_decide as Hin.
  - clear Hin. induction df as [|[l' c'] df IH]; [done|].
    rewrite fmap_cons. simpl. case_decide as E; simpl in E.
    + subst l'. rewrite !filter_cons_False by (simpl; congruence). apply IH.
    + destruct (decide (l' = label)) as [->|Hl].
      * rewrite !filter_cons_True by done. by f_equal.
      * rewrite !filter_cons_False by done. apply IH.
  - rewrite filter_app, filter_cons_False by done. by rewrite app_nil_r.
Qed.

Lemma getcol_setcol_ne label l c df :
  l ≠ label → getcol label (setcol l c df) = getcol label df.
Proof. intros Hne. unfold getcol. by rewrite filter_label_setcol_ne. Qed.

Lemma elem_setcol label c df : label ∈ names df → (label, c) ∈ setcol label c df.
Proof.
  intros Hin. pose proof (setcol_Forall2 label c df Hin) as H.
  apply names_elem in Hin as [c0 [i Hi]%list_elem_of_lookup_1].
  destruct (Forall2_lookup_l _ _ _ _ _ H Hi) as ([l' c'] & Hi' & E1 & E2).
  simpl in *. rewrite decide_True in E2 by done. subst.
  by eapply list_elem_of_lookup_2.
Qed.

(** What a loop of column updates does at one of its labels. *)
Lemma for_each_update_at f labels df df' label :
  NoDup labels → label ∈ labels →
  for_each labels (update_column f) df = Ret df' →
  ∃ c c', getcol label df = Ret c ∧ f c = Ret c' ∧ (label, c') ∈ df'.
Proof.
  revert df. induction labels as [|l labels IH]; intros df Hnd Hl H.
  - by apply elem_of_nil in Hl.
  - rewrite for_each_cons in H. apply bind_Ret in H as (df1 & H1 & H).
    apply update_column_Ret in H1 as (c0 & c0' & Hget & Hf & ->).
    apply NoDup_cons in Hnd as [Hnotin Hnd].
    pose proof (elem_names _ _ _ (getcol_Ret_elem _ _ _ Hget)) as Hin.
    apply elem_of_cons in Hl as [->|Hl].
    + exists c0, c0'. split; [done|]. split; [done|].
      eapply for_each_update_elem; [exact H| |done]. by apply elem_setcol.
    + destruct (IH _ Hnd Hl H) as (c & c' & Hc & Hfc & Hin').
      exists c, c'. split; [|done].
      rewrite getcol_setcol_ne in Hc; [done|]. by intros ->.
Qed.

Lemma ord_enc_cols_NoDup : NoDup ord_enc_cols.
Proof. apply (bool_decide_unpack _). vm_compute. exact I. Qed.

Lemma bin_enc_cols_NoDup : NoDup bin_enc_cols.
Proof. apply (bool_decide_unpack _). vm_compute. exact I. Qed.

(** The groups do not overlap. *)
Lemma enc_cols_disjoint :
  (∀ l, l ∈ ord_enc_cols → l ∉ one_hot_enc_cols ++ bin_enc_cols)
  ∧ (∀ l, l ∈ bin_enc_cols → l ∉ ord_enc_cols ++ one_hot_enc_cols).
Proof.
  split; apply Forall_forall, (bool_decide_unpack _); vm_compute; exact I.
Qed.

(** A column of the frame after the ordinal loop that is neither one-hot
    expanded nor label encoded: the encoded frame has its cast. *)
Lemma Encoder_tail_column df1 df2 df3 encoded label c :
  get_dummies one_hot_enc_cols df1 = Ret df2 →
  for_each bin_enc_cols (update_column bin_enc_fit_transform) df2 = Ret df3 →
  astype_int df3 = Ret encoded →
  (label, c) ∈ df1 → label ∉ one_hot_enc_cols ++ bin_enc_cols →
  ∃ c', (label, c') ∈ encoded ∧ astype_int_column c = Ret c'.
Proof.
  intros H2 H3 H4 Hin [Hhot Hbin]%not_elem_of_app.
  apply get_dummies_Ret in H2 as (blocks & _ & ->).
  assert (Hin3 : (label, c) ∈ df3).
  { eapply for_each_update_elem; [exact H3| |done].
    apply elem_of_app. left. by apply list_elem_of_filter. }
  apply list_elem_of_lookup_1 in Hin3 as [i Hi].
  destruct (Forall2_lookup_l _ _ _ _ _ (astype_int_Ret _ _ H4) Hi)
    as ([l' c'] & Hi' & E1 & E2).
  simpl in *. subst l'. exists c'. split; [|done]. by eapply list_elem_of_lookup_2.
Qed.

Lemma Encoder_reads_listed df encoded label :
  Encoder df = Ret encoded →
  label ∈ ord_enc_cols ++ one_hot_enc_cols ++ bin_enc_cols → label ∈ names df.
Proof.
  intros (df1 & df2 & df3 & H1 & H2 & H3 & H4)%Encoder_Ret Hl.
  pose proof (for_each_update_names _ _ _ _ H1) as E1.
  apply elem_of_app in Hl as [Hl|[Hl|Hl]%elem_of_app].
  - destruct (for_each_update_at _ _ _ _ _ ord_enc_cols_NoDup Hl H1) as (c & _ & Hc & _).
    eapply elem_names, getcol_Ret_elem, Hc.
  - apply get_dummies_Ret in H2 as (blocks & Hb & _).
    apply list_elem_of_lookup_1 in Hl as [k Hk].
    destruct (Forall2_lookup_l _ _ _ _ _ Hb Hk) as (b & _ & vs & Hget & _).
    rewrite <- E1. eapply elem_names, getcol_Ret_elem, Hget.
  - destruct (for_each_update_at _ _ _ _ _ bin_enc_cols_NoDup Hl H3) as (c & _ & Hc & _).
    apply getcol_Ret_elem in Hc.
    apply get_dummies_Ret in H2 as (blocks & Hb & ->).
    apply elem_of_app in Hc as [Hc|Hc].
    + rewrite <- E1. apply list_elem_of_filter in Hc as [_ Hc]. by eapply elem_names.
    + exfalso. apply list_elem_of_In, in_concat in Hc as (block & Hblock & Hc).
      apply list_elem_of_In in Hblock, Hc.
      apply list_elem_of_lookup_1 in Hblock as [k Hk].
      destruct (Forall2_lookup_r _ _ _ _ _ Hb Hk) as (l & Hlk & vs & _ & ->).
      apply list_elem_of_fmap in Hc as (cat & [= -> _] & _).
      revert Hl. apply (dummy_name_fresh bin_enc_cols one_hot_enc_cols l cat).
      * vm_compute. reflexivity.
      * by eapply list_elem_of_lookup_2.
Qed.

(** X8.  Whenever the Encoder yields a frame, the frame that it was given has
    every column of the three hand-written groups. *)
Theorem Encoder_needs_listed_columns df encoded :
  Encoder df = Ret encoded →
  ord_enc_cols ++ one_hot_enc_cols ++ bin_enc_cols ⊆ names df.
Proof. intros H label Hl. by eapply Encoder_reads_listed. Qed.

Lemma Encoder_needs_listed_columns_witness :
  ord_enc_cols ++ one_hot_enc_cols ++ bin_enc_cols ⊆ names sample_cleaned.
Proof.
  apply (Encoder_needs_listed_columns sample_cleaned sample_encoded).
  vm_compute. reflexivity.
Defined.

(** ** The target column and a column without any value, through the stages *)

(** The Encoder neither makes nor loses a column called [SalePrice]. *)
Lemma Encoder_target_names df encoded :
  Encoder df = Ret encoded →
  "SalePrice" ∈ names encoded ↔ "SalePrice" ∈ names df.
Proof.
  intros He. split.
  - intros Henc.
    destruct (Encoder_names _ _ _ He Henc) as [?|(label & cat & Hl & E)]; [done|].
    exfalso.
    apply (dummy_name_fresh ["SalePrice"] one_hot_enc_cols label cat) in Hl.
    + apply Hl. rewrite <- E. apply list_elem_of_here.
    + vm_compute. reflexivity.
  - intros Hin.
    apply Encoder_Ret in He as (df1 & df2 & df3 & H1 & H2 & H3 & H4).
    rewrite (astype_int_names _ _ H4), (for_each_update_names _ _ _ _ H3).
    apply get_dummies_Ret in H2 as (blocks & _ & ->).
    unfold names. rewrite fmap_app. apply elem_of_app. left.
    apply names_filter_label. split.
    + by rewrite (for_each_update_names _ _ _ _ H1).
    + apply (bool_decide_unpack _). vm_compute. exact I.
Qed.

(** C10, as the notebook has it.  Let the labels of the raw frame be
    distinct and at most 30% of the cells of [SalePrice] be missing.  Then
    the column is in the cleaned frame; in the encoded frame; not in the
    matrix that the forest is fitted on, so that it is not among the selected
    features; and exactly once in the feature-selected frame. *)
Theorem target_column_preserved
    (forest : Z → frame → column → outcome (list Q)) df c q cleaned :
  NoDup (names df) →
  ("SalePrice", c) ∈ df → isnull_mean c = Some q → (q <= threshold)%Q →
  Cleaner df = Ret cleaned →
  "SalePrice" ∈ names cleaned
  ∧ ∀ encoded,
      Encoder cleaned = Ret encoded →
      "SalePrice" ∈ names encoded
      ∧ ("SalePrice" ∉ names (filter (λ p : string * column, p.1 ∉ ["SalePrice"]) encoded))
      ∧ (∀ sel, selected_features forest encoded = Ret sel → "SalePrice" ∉ sel)
      ∧ ∀ final,
          FeatureSelector forest encoded = Ret final →
          "SalePrice" ∈ names final
          ∧ length (filter (λ l, l = "SalePrice") (names final)) = 1.
Proof.
  intros Hnd Hin Hq Hle Hc.
  assert (Hcleaned : "SalePrice" ∈ names cleaned).
  { rewrite (Cleaner_names _ _ Hc). apply (elem_names _ c).
    apply kept_elem. split; [done|]. split; [|done].
    intros (c' & Hin' & Hgt)%columns_to_drop_elem.
    rewrite (NoDup_names_inj _ _ _ _ Hnd Hin' Hin), Hq in Hgt.
    apply gt_threshold_true in Hgt. by apply Qlt_not_le in Hgt. }
  split; [done|]. intros encoded He.
  assert (HX : "SalePrice" ∉ names (filter (λ p : string * column,
                                               p.1 ∉ ["SalePrice"]) encoded)).
  { intros [_ Hn]%names_filter_label. apply Hn, list_elem_of_here. }
  assert (Hsel : ∀ sel, selected_features forest encoded = Ret sel → "SalePrice" ∉ sel).
  { intros sel Hs Hl. by apply (selected_features_subset _ _ _ Hs) in Hl. }
  split; [by apply (Encoder_target_names _ _ He)|]. split; [done|]. split; [done|].
  intros final (sel & Hs & Hnames & _)%FeatureSelector_Ret.
  rewrite Hnames. split; [apply elem_of_app; right; apply list_elem_of_here|].
  rewrite filter_app, length_app.
  assert (E : filter (λ l, l = "SalePrice") sel = []).
  { destruct (filter (λ l, l = "SalePrice") sel) as [|l ls] eqn:E; [done|].
    assert (Hl : l ∈ filter (λ l, l = "SalePrice") sel)
      by (rewrite E; apply list_elem_of_here).
    apply list_elem_of_filter in Hl as [-> Hl]. by apply Hsel in Hl. }
  by rewrite E.
Qed.

Lemma target_column_preserved_witness :
  "SalePrice" ∈ names sample_cleaned
  ∧ ∀ encoded,
      Encoder sample_cleaned = Ret encoded →
      "SalePrice" ∈ names encoded
      ∧ ("SalePrice" ∉ names (filter (λ p : string * column, p.1 ∉ ["SalePrice"]) encoded))
      ∧ (∀ sel, selected_features striped_importances encoded = Ret sel →
                "SalePrice" ∉ sel)
      ∧ ∀ final,
          FeatureSelector striped_importances encoded = Ret final →
          "SalePrice" ∈ names final
          ∧ length (filter (λ l, l = "SalePrice") (names final)) = 1.
Proof.
  apply (target_column_preserved striped_importances sample
           (IntCol [208500; 181500; 223500; 140000]%Z) (0 # 4)%Q).
  - exact sample_NoDup.
  - apply (list_elem_of_lookup_2 _ 40). reflexivity.
  - reflexivity.
  - vm_compute. discriminate.
  - vm_compute. reflexivity.
Defined.

(** C10, as claimed, fails: half of the prices of this frame are missing, so
    that the threshold drop takes the target with the other columns above
    30%; the Cleaner and the Encoder yield frames without it. *)
Lemma target_column_dropped_by_threshold :
  "SalePrice" ∈ names unpriced
  ∧ ∃ cleaned encoded,
      Cleaner unpriced = Ret cleaned ∧ Encoder cleaned = Ret encoded
      ∧ ("SalePrice" ∉ names cleaned) ∧ ("SalePrice" ∉ names encoded).
Proof.
  split; [apply (bool_decide_unpack _); vm_compute; exact I|].
  eexists. eexists. split; [vm_compute; reflexivity|].
  split; [vm_compute; reflexivity|].
  split; apply (bool_decide_unpack _); vm_compute; exact I.
Qed.

(** C4, as the notebook has it.  A column all of whose cells are missing is
    above the threshold (1 > 0.3) and goes with the other dropped columns.
    From then on everything is as on the frame without that column: the
    Cleaner and the run of the whole notebook have the same outcome.  Nothing
    is raised on account of the missing values; what is raised is the
    [KeyError] of a cell that names the dropped column: the Cleaner's own drop
    of [Id], the lookup of a column of the three encoder groups, which leaves
    the Encoder without a frame, or the Feature Selector's drop of the
    target. *)
Theorem wholly_null_column_is_dropped
    (forest : Z → frame → column → outcome (list Q))
    (score : grid_search → estimator → frame → column → Q)
    (predict : fitted → frame → outcome column) df label c :
  (label, c) ∈ df → wholly_null c →
  let without := filter (λ p : string * column, p.1 ≠ label) df in
  label ∈ columns_to_drop df
  ∧ Cleaner df = Cleaner without
  ∧ (∀ d d_01, notebook forest score predict df d d_01
               = notebook forest score predict without d d_01)
  ∧ (label = "Id" → Cleaner df = Raise (KeyError "Id"))
  ∧ ∀ cleaned,
      Cleaner df = Ret cleaned →
      (label ∉ names cleaned)
      ∧ getcol label cleaned = Raise (KeyError label)
      ∧ (label ∈ ord_enc_cols ++ one_hot_enc_cols ++ bin_enc_cols →
         ∀ encoded, Encoder cleaned ≠ Ret encoded)
      ∧ (label = "SalePrice" →
         ∀ encoded, Encoder cleaned = Ret encoded →
                    FeatureSelector forest encoded = Raise (KeyError "SalePrice")).
Proof.
  intros Hin Hnull without.
  assert (Hl : label ∈ columns_to_drop df).
  { apply columns_to_drop_elem. exists c. split; [done|]. by apply wholly_null_gt. }
  assert (Hsame : Cleaner df = Cleaner without).
  { rewrite !Cleaner_after_threshold_drop. unfold without.
    by rewrite threshold_drop_without. }
  split; [done|]. split; [done|]. split; [|split].
  - intros d d_01. unfold notebook, model_cells. by rewrite Hsame.
  - intros ->. rewrite Cleaner_after_threshold_drop.
    rewrite drop_columns_KeyError; [done|].
    by intros [_ Hn]%names_filter_label.
  - intros cleaned Hc.
    assert (Hnot : label ∉ names cleaned).
    { rewrite (Cleaner_names _ _ Hc).
      intros [c' Hc']%names_elem. by apply kept_elem in Hc' as (_ & Hnot & _). }
    split; [done|]. split; [|split].
    + unfold getcol. by rewrite filter_label_absent.
    + intros Hlisted encoded He. apply Hnot. by eapply Encoder_reads_listed.
    + intros -> encoded He.
      unfold FeatureSelector, selected_features, feature_importance.
      rewrite drop_columns_KeyError; [done|].
      by rewrite (Encoder_target_names _ _ He).
Qed.

Lemma wholly_null_column_is_dropped_witness :
  let without := filter (λ p : string * column, p.1 ≠ "PoolQC") sample in
  "PoolQC" ∈ columns_to_drop sample
  ∧ Cleaner sample = Cleaner without
  ∧ (∀ d d_01, notebook striped_importances flat_score constant_predict sample d d_01
               = notebook striped_importances flat_score constant_predict without d d_01)
  ∧ ("PoolQC" = "Id" → Cleaner sample = Raise (KeyError "Id"))
  ∧ ∀ cleaned,
      Cleaner sample = Ret cleaned →
      ("PoolQC" ∉ names cleaned)
      ∧ getcol "PoolQC" cleaned = Raise (KeyError "PoolQC")
      ∧ ("PoolQC" ∈ ord_enc_cols ++ one_hot_enc_cols ++ bin_enc_cols →
         ∀ encoded, Encoder cleaned ≠ Ret encoded)
      ∧ ("PoolQC" = "SalePrice" →
         ∀ encoded, Encoder cleaned = Ret encoded →
                    FeatureSelector striped_importances encoded
                    = Raise (KeyError "SalePrice")).
Proof.
  apply (wholly_null_column_is_dropped striped_importances flat_score constant_predict
           sample "PoolQC" (ObjCol [None; None; None; None])).
  - apply (list_elem_of_lookup_2 _ 2). reflexivity.
  - exists (4 # 4)%Q. split; reflexivity.
Defined.

(** A column of the one-hot group without any value: the Cleaner drops it,
    and the Encoder stops at its lookup. *)
Example wholly_null_Street :
  ∃ cleaned,
    Cleaner (setcol "Street" (ObjCol [None; None; None; None]) sample) = Ret cleaned
    ∧ Encoder cleaned = Raise (KeyError "Street").
Proof. eexists. split; [vm_compute; reflexivity|]. vm_compute. reflexivity. Qed.

(** C4, as claimed, fails.  The frame of ten houses has a column without any
    value.  The Cleaner drops it and yields a frame, every cell up to the
    predictions of the three models yields its result, and the run stops at
    the evaluation with the [NameError] of the notebook's own [eval_metrics],
    as it does on the frame without that column: no library call has
    raised. *)
Lemma wholly_null_column_no_exception :
  ("PoolQC", ObjCol (replicate 10 None)) ∈ houses
  ∧ wholly_null (ObjCol (replicate 10 None))
  ∧ (∃ cleaned, Cleaner houses = Ret cleaned ∧ "PoolQC" ∉ names cleaned)
  ∧ (∃ k, model_cells striped_importances flat_score constant_predict houses houses_draw
          = Ret k)
  ∧ notebook striped_importances flat_score constant_predict
             houses houses_draw houses_draw_01
    = Raise (NameError "mean_absolute_error")
  ∧ notebook striped_importances flat_score constant_predict
             (filter (λ p : string * column, p.1 ≠ "PoolQC") houses)
             houses_draw houses_draw_01
    = Raise (NameError "mean_absolute_error").
Proof.
  split; [apply (list_elem_of_lookup_2 _ 2); reflexivity|].
  split; [exists (10 # 10)%Q; split; reflexivity|].
  split.
  { eexists. split; [vm_compute; reflexivity|].
    apply (bool_decide_unpack _). vm_compute. exact I. }
  split; [eexists; vm_compute; reflexivity|].
  split; vm_compute; reflexivity.
Qed.

(** ** Encoder: ordinal and label codes *)

Lemma category_code_Ret cats v i :
  category_code cats v = Ret i → cats !! i = Some v.
Proof.
  unfold category_code. destruct (list_find _ cats) as [[j w]|] eqn:E; [|discriminate].
  intros [= <-]. apply list_find_Some in E as (Hj & -> & _). done.
Qed.

Lemma levels_lookup_le vs i j v w :
  levels vs !! i = Some v → levels vs !! j = Some w →
  (i ≤ j ↔ String.le v w).
Proof.
  intros Hi Hj.
  pose proof (levels_NoDup vs) as Hnd.
  assert (Hs : StronglySorted String.le (levels vs)).
  { unfold levels. apply StronglySorted_merge_sort; apply _. }
  assert (Hlt : ∀ a b x y, levels vs !! a = Some x → levels vs !! b = Some y →
                           a < b → String.le x y).
  { clear i j v w Hi Hj Hnd. induction Hs as [|z l Hs IH Hz]; intros a b x y Ha Hb Hab.
    - done.
    - destruct b as [|b]; [lia|]. destruct a as [|a]; simpl in *.
      + injection Ha as <-. apply (proj1 (Forall_forall _ _) Hz).
        by eapply list_elem_of_lookup_2.
      + eapply IH; [exact Ha|exact Hb|lia]. }
  split.
  - intros Hle. destruct (decide (i = j)) as [->|Hne].
    + rewrite Hi in Hj. injection Hj as <-. reflexivity.
    + apply (Hlt i j); [done|done|lia].
  - intros Hvw. destruct (decide (i ≤ j)) as [|Hgt]; [done|].
    assert (Hwv : String.le w v) by (apply (Hlt j i); [done|done|lia]).
    assert (v = w) as -> by (by apply (anti_symm String.le)).
    assert (i = j) as -> by (by eapply NoDup_lookup).
    lia.
Qed.

Lemma truncate_inject_Z z : truncate (inject_Z z) = z.
Proof. unfold truncate. simpl. apply Z.quot_1_r. Qed.

Lemma ord_enc_then_cast vs c c' :
  ord_enc_fit_transform (ObjCol vs) = Ret c → astype_int_column c = Ret c' →
  ∃ codes, c' = IntCol codes ∧ coded vs codes.
Proof.
  unfold ord_enc_fit_transform. destruct vs as [|o0 vs0]; [discriminate|].
  set (vs := o0 :: vs0). intros H Hc. inv_bind H. injection H as <-.
  apply astype_int_column_FloatCol in Hc as (qs & -> & ->).
  exists (truncate <$> qs). split; [done|].
  apply map_out_Ret in Ha. unfold coded.
  apply Forall2_fmap_r in Ha. apply Forall2_fmap_r.
  eapply Forall2_impl; [exact Ha|]. intros [v|] q Hq; simpl in Hq.
  - inv_bind Hq. injection Hq as <-. exists v, a.
    split; [done|]. split; [apply truncate_inject_Z|]. by apply category_code_Ret.
  - discriminate.
Qed.

Lemma bin_enc_then_cast vs c c' :
  bin_enc_fit_transform (ObjCol vs) = Ret c → astype_int_column c = Ret c' →
  ∃ codes, c' = IntCol codes ∧ label_coded vs codes.
Proof.
  unfold bin_enc_fit_transform. intros H Hc. inv_bind H. injection H as <-.
  simpl in Hc. injection Hc as <-. exists a. split; [done|].
  apply map_out_Ret in Ha. unfold label_coded.
  eapply Forall2_impl; [exact Ha|]. intros [v|] z Hz; simpl in Hz.
  - inv_bind Hz. injection Hz as <-. exists a0.
    split; [done|]. by apply category_code_Ret.
  - by injection Hz as <-.
Qed.

(** Without a missing cell the label codes are positions of values. *)
Lemma label_coded_complete vs codes :
  complete (ObjCol vs) → label_coded vs codes → coded vs codes.
Proof.
  intros Hc H. unfold coded. apply Forall2_same_length_lookup.
  split; [by eapply Forall2_length|]. intros i o z Ho Hz.
  pose proof (Forall2_lookup_lr _ _ _ _ _ _ H Ho Hz) as Hoz.
  destruct (complete_ObjCol vs i o Hc Ho) as [v ->].
  destruct Hoz as (j & -> & Hj). by exists v, j.
Qed.

(** The order of two codes is the order of the two values as strings. *)
Lemma coded_order vs codes a b v w x y :
  coded vs codes →
  vs !! a = Some (Some v) → vs !! b = Some (Some w) →
  codes !! a = Some x → codes !! b = Some y →
  ((x ≤ y)%Z ↔ String.le v w).
Proof.
  intros Hc Ha Hb Hx Hy.
  destruct (Forall2_lookup_lr _ _ _ _ _ _ Hc Ha Hx) as (v' & i & [= <-] & -> & Hi).
  destruct (Forall2_lookup_lr _ _ _ _ _ _ Hc Hb Hy) as (w' & j & [= <-] & -> & Hj).
  rewrite <- (levels_lookup_le vs i j v w Hi Hj). lia.
Qed.

(** X9.  Whenever the Encoder yields a frame: a column of the ordinal group
    is in it as an integer column of the same length; no cell of the column
    was missing; the code of a value is its position among the sorted distinct
    values of the column, so that codes are ordered as the values are as
    strings. *)
Theorem Encoder_ordinal_codes df encoded label vs :
  Encoder df = Ret encoded →
  label ∈ ord_enc_cols → (label, ObjCol vs) ∈ df →
  ∃ codes,
    (label, IntCol codes) ∈ encoded
    ∧ coded vs codes
    ∧ ∀ a b v w x y,
        vs !! a = Some (Some v) → vs !! b = Some (Some w) →
        codes !! a = Some x → codes !! b = Some y →
        ((x ≤ y)%Z ↔ String.le v w).
Proof.
  intros (df1 & df2 & df3 & H1 & H2 & H3 & H4)%Encoder_Ret Hl Hin.
  destruct (for_each_update_at _ _ _ _ _ ord_enc_cols_NoDup Hl H1)
    as (c & c1 & Hget & Hf & Hin1).
  pose proof (getcol_Ret_unique _ _ _ _ Hget Hin) as <-.
  destruct (Encoder_tail_column _ _ _ _ _ _ H2 H3 H4 Hin1) as (c' & Hin' & Hc').
  { by apply (proj1 enc_cols_disjoint). }
  destruct (ord_enc_then_cast _ _ _ Hf Hc') as (codes & -> & Hcoded).
  exists codes. split; [done|]. split; [done|].
  intros a b v w x y. by apply coded_order.
Qed.

Lemma Encoder_ordinal_codes_witness :
  ∃ codes,
    ("LotShape", IntCol codes) ∈ sample_encoded
    ∧ coded [Some "Gd"; Some "TA"; Some "TA"; Some "TA"] codes
    ∧ ∀ a b v w x y,
        [Some "Gd"; Some "TA"; Some "TA"; Some "TA"] !! a = Some (Some v) →
        [Some "Gd"; Some "TA"; Some "TA"; Some "TA"] !! b = Some (Some w) →
        codes !! a = Some x → codes !! b = Some y →
        ((x ≤ y)%Z ↔ String.le v w).
Proof.
  apply (Encoder_ordinal_codes sample_cleaned).
  - vm_compute. reflexivity.
  - apply (list_elem_of_lookup_2 _ 0). reflexivity.
  - apply (list_elem_of_lookup_2 _ 1). reflexivity.
Defined.

(** X10.  The label-encoded column [CentralAir] is in the encoded frame as
    an integer column.  The code of a value is its position among the sorted
    distinct values of the column, and a missing cell gets the code after all
    of them; so the codes lie between 0 and the number of distinct values, and
    below that number when no cell is missing: a complete column of two
    values is coded with 0 and 1. *)
Theorem Encoder_label_codes df encoded label vs :
  Encoder df = Ret encoded →
  label ∈ bin_enc_cols → (label, ObjCol vs) ∈ df →
  ∃ codes,
    (label, IntCol codes) ∈ encoded
    ∧ label_coded vs codes
    ∧ Forall (λ z, (0 ≤ z ≤ Z.of_nat (length (levels vs)))%Z) codes
    ∧ (complete (ObjCol vs) →
       coded vs codes
       ∧ Forall (λ z, (0 ≤ z < Z.of_nat (length (levels vs)))%Z) codes).
Proof.
  intros (df1 & df2 & df3 & H1 & H2 & H3 & H4)%Encoder_Ret Hl Hin.
  destruct (for_each_update_at _ _ _ _ _ bin_enc_cols_NoDup Hl H3)
    as (c & c3 & Hget & Hf & Hin3).
  assert (Hin2 : (label, ObjCol vs) ∈ df2).
  { apply get_dummies_Ret in H2 as (blocks & _ & ->).
    apply elem_of_app. left. apply list_elem_of_filter. split.
    - simpl. intros Hhot. apply (proj2 enc_cols_disjoint label Hl).
      apply elem_of_app. by right.
    - eapply for_each_update_elem; [exact H1|done|].
      intros Hord. apply (proj2 enc_cols_disjoint label Hl).
      apply elem_of_app. by left. }
  pose proof (getcol_Ret_unique _ _ _ _ Hget Hin2) as <-.
  apply list_elem_of_lookup_1 in Hin3 as [i Hi].
  destruct (Forall2_lookup_l _ _ _ _ _ (astype_int_Ret _ _ H4) Hi)
    as ([l' c'] & Hi' & E1 & E2).
  simpl in *. subst l'.
  destruct (bin_enc_then_cast _ _ _ Hf E2) as (codes & -> & Hcoded).
  exists codes. split; [by eapply list_elem_of_lookup_2|]. split; [done|]. split.
  - apply Forall_forall. intros z [k Hk]%list_elem_of_lookup_1.
    destruct (Forall2_lookup_r _ _ _ _ _ Hcoded Hk) as ([v|] & _ & Hz).
    + destruct Hz as (j & -> & Hj). apply lookup_lt_Some in Hj. lia.
    + subst z. lia.
  - intros Hc. pose proof (label_coded_complete _ _ Hc Hcoded) as Hcoded'.
    split; [done|].
    apply Forall_forall. intros z [k Hk]%list_elem_of_lookup_1.
    destruct (Forall2_lookup_r _ _ _ _ _ Hcoded' Hk) as (o & _ & v & j & _ & -> & Hj).
    apply lookup_lt_Some in Hj. lia.
Qed.

Lemma Encoder_label_codes_witness :
  ∃ codes,
    ("CentralAir", IntCol codes) ∈ sample_encoded
    ∧ label_coded [Some "Y"; Some "N"; Some "Y"; Some "Y"] codes
    ∧ Forall (λ z, (0 ≤ z ≤ Z.of_nat (length (levels [Some "Y"; Some "N"; Some "Y"; Some "Y"])))%Z)
             codes
    ∧ (complete (ObjCol [Some "Y"; Some "N"; Some "Y"; Some "Y"]) →
       coded [Some "Y"; Some "N"; Some "Y"; Some "Y"] codes
       ∧ Forall (λ z, (0 ≤ z < Z.of_nat (length (levels [Some "Y"; Some "N"; Some "Y"; Some "Y"])))%Z)
                codes).
Proof.
  apply (Encoder_label_codes sample_cleaned).
  - vm_compute. reflexivity.
  - apply (list_elem_of_lookup_2 _ 0). reflexivity.
  - apply (list_elem_of_lookup_2 _ 37). reflexivity.
Defined.

(** A missing cell of a two-valued column is coded 2. *)
Example label_codes_missing :
  bin_enc_fit_transform (ObjCol [Some "Y"; None; Some "N"]) = Ret (IntCol [1; 2; 0]%Z).
Proof. vm_compute. reflexivity. Qed.

(** ** Encoder: indicators of a missing cell, the cast, the rows *)




Lemma astype_int_column_idem c c' :
  astype_int_column c = Ret c' → astype_int_column c' = Ret c'.
Proof. intros (zs & ->)%astype_int_column_IntCol. done. Qed.

(** X12.  The cast is idempotent: a frame that came out of [astype(int)]
    goes through it unchanged.  So it is for the encoded frame. *)
Theorem astype_int_idempotent df df' :
  astype_int df = Ret df' → astype_int df' = Ret df'.
Proof.
  intros H%astype_int_Ret. unfold astype_int. apply map_out_Ret.
  apply Forall_Forall2_diag, Forall_forall. intros [l' c'] [i Hi]%list_elem_of_lookup_1.
  destruct (Forall2_lookup_r _ _ _ _ _ H Hi) as (p & _ & _ & Hp).
  simpl in *. by rewrite (astype_int_column_idem _ _ Hp).
Qed.

Lemma astype_int_idempotent_witness :
  astype_int [("LotFrontage", IntCol [68]%Z); ("Street_Pave", IntCol [1]%Z)]
  = Ret [("LotFrontage", IntCol [68]%Z); ("Street_Pave", IntCol [1]%Z)].
Proof.
  apply (astype_int_idempotent
           [("LotFrontage", FloatCol [Some (137 # 2)%Q]); ("Street_Pave", BoolCol [true])]).
  vm_compute. reflexivity.
Defined.

Lemma map_out_length {A B} (f : A → outcome B) xs ys :
  map_out f xs = Ret ys → length ys = length xs.
Proof. intros H%map_out_Ret. symmetry. by eapply Forall2_length. Qed.

Lemma ord_enc_col_len c c' : ord_enc_fit_transform c = Ret c' → col_len c' = col_len c.
Proof.
  destruct c as [vs|vs|vs|vs]; [|discriminate..].
  unfold ord_enc_fit_transform. destruct vs as [|o0 vs0]; [discriminate|].
  set (vs := o0 :: vs0). intros H. inv_bind H. injection H as <-.
  by apply map_out_length in Ha.
Qed.

Lemma bin_enc_col_len c c' : bin_enc_fit_transform c = Ret c' → col_len c' = col_len c.
Proof.
  destruct c as [vs|vs|vs|vs]; [|discriminate..].
  unfold bin_enc_fit_transform. intros H. inv_bind H. injection H as <-.
  by apply map_out_length in Ha.
Qed.

Lemma astype_int_col_len c c' : astype_int_column c = Ret c' → col_len c' = col_len c.
Proof.
  destruct c as [vs|vs|vs|vs]; [discriminate| | |].
  - unfold astype_int_column. intros H. inv_bind H. injection H as <-.
    by apply map_out_length in Ha.
  - by intros [= <-].
  - intros [= <-]. simpl. apply length_fmap.
Qed.

Lemma setcol_elem label c df p :
  p ∈ setcol label c df → p ∈ df ∨ p = (label, c).
Proof.
  unfold setcol. case_decide.
  - intros (q & -> & Hq)%list_elem_of_fmap. case_decide; auto.
  - intros [?| ->%list_elem_of_singleton]%elem_of_app; auto.
Qed.

Lemma for_each_update_rows f labels df df' n :
  (∀ c c', f c = Ret c' → col_len c' = col_len c) →
  for_each labels (update_column f) df = Ret df' → rows n df → rows n df'.
Proof.
  intros Hf. revert df. induction labels as [|l labels IH]; intros df; simpl.
  - by intros [= <-].
  - intros H Hn. inv_bind H.
    apply update_column_Ret in Ha as (c & c' & Hget & Hc & ->).
    apply (IH _ H). intros p [Hp| ->]%setcol_elem; [by apply Hn|].
    simpl. rewrite (Hf _ _ Hc). by apply (Hn (l, c)), getcol_Ret_elem.
Qed.

Lemma Encoder_rows df encoded n :
  Encoder df = Ret encoded → rows n df → rows n encoded.
Proof.
  intros (df1 & df2 & df3 & H1 & H2 & H3 & H4)%Encoder_Ret Hn.
  assert (Hn1 : rows n df1).
  { eapply for_each_update_rows; [apply ord_enc_col_len|exact H1|done]. }
  assert (Hn2 : rows n df2).
  { apply get_dummies_Ret in H2 as (blocks & Hb & ->).
    intros p [[_ Hp]%list_elem_of_filter|Hp]%elem_of_app; [by apply Hn1|].
    apply list_elem_of_In, in_concat in Hp as (block & Hblock & Hp).
    apply list_elem_of_In in Hblock, Hp.
    apply list_elem_of_lookup_1 in Hblock as [k Hk].
    destruct (Forall2_lookup_r _ _ _ _ _ Hb Hk) as (l & _ & vs & Hget & ->).
    apply list_elem_of_fmap in Hp as (cat & -> & _). simpl.
    rewrite length_fmap. by apply (Hn1 (l, ObjCol vs)), getcol_Ret_elem. }
  assert (Hn3 : rows n df3).
  { eapply for_each_update_rows; [apply bin_enc_col_len|exact H3|done]. }
  intros p' [i Hi]%list_elem_of_lookup_1.
  destruct (Forall2_lookup_r _ _ _ _ _ (astype_int_Ret _ _ H4) Hi) as (p & Hp & _ & Hc).
  rewrite (astype_int_col_len _ _ Hc). by eapply Hn3, list_elem_of_lookup_2.
Qed.

Lemma rows_Forall n df :
  Forall (λ p : string * column, col_len p.2 = n) df → rows n df.
Proof. intros H p Hp. by apply (proj1 (Forall_forall _ _) H). Qed.

Lemma most_freq_imp_col_len c c' : most_freq_imp c = Ret c' → col_len c' = col_len c.
Proof.
  destruct c as [vs|vs|vs|vs]; [|discriminate..]. simpl.
  destruct (most_frequent vs); [|discriminate]. intros [= <-]. simpl.
  apply length_fmap.
Qed.

Lemma fillna_mean_col_len c c' : fillna_mean c = Ret c' → col_len c' = col_len c.
Proof.
  destruct c as [vs|vs|vs|vs]; [discriminate| | |discriminate]; simpl.
  - destruct (mean vs); intros [= <-]; [|done]. simpl. apply length_fmap.
  - by intros [= <-].
Qed.

Lemma Cleaner_rows df cleaned n : Cleaner df = Ret cleaned → rows n df → rows n cleaned.
Proof.
  intros (_ & _ & cn & nn & filled & _ & _ & Hf & Hc)%Cleaner_Ret Hn.
  eapply for_each_update_rows; [apply fillna_mean_col_len|exact Hc|].
  eapply for_each_update_rows; [apply most_freq_imp_col_len|exact Hf|].
  intros [l c] (Hin & _)%kept_elem. by apply Hn.
Qed.

(** X13.  The three stages keep the rows: when every column of the raw frame
    has [n] rows, so has every column of the cleaned, of the encoded and of
    the feature-selected frame. *)
Theorem stages_keep_rows
    (forest : Z → frame → column → outcome (list Q)) df cleaned encoded final n :
  Cleaner df = Ret cleaned → Encoder cleaned = Ret encoded →
  FeatureSelector forest encoded = Ret final →
  rows n df → rows n cleaned ∧ rows n encoded ∧ rows n final.
Proof.
  intros Hc He Hf Hn.
  pose proof (Cleaner_rows _ _ _ Hc Hn) as Hn1.
  pose proof (Encoder_rows _ _ _ He Hn1) as Hn2.
  split; [done|]. split; [done|].
  apply FeatureSelector_Ret in Hf as (sel & _ & _ & Hsub).
  intros p Hp. by apply Hn2, Hsub.
Qed.

Lemma stages_keep_rows_witness :
  ∃ final, FeatureSelector striped_importances sample_encoded = Ret final
           ∧ rows 4 sample_cleaned ∧ rows 4 sample_encoded ∧ rows 4 final.
Proof.
  eexists. split; [vm_compute; reflexivity|].
  apply (stages_keep_rows striped_importances sample).
  - vm_compute. reflexivity.
  - vm_compute. reflexivity.
  - vm_compute. reflexivity.
  - apply rows_Forall, (bool_decide_unpack _). vm_compute. exact I.
Defined.

(** ** Feature Selector: the order of the features *)

#[local] Instance more_important_total : Total more_important.
Proof.
  intros a b. unfold more_important.
  destruct (Qlt_le_dec a.2 b.2) as [H|H].
  - right. apply Is_true_true, Qle_bool_iff. by apply Qlt_le_weak.
  - left. by apply Is_true_true, Qle_bool_iff.
Qed.

#[local] Instance more_important_trans : Transitive more_important.
Proof.
  intros a b c. unfold more_important.
  rewrite !Is_true_true, !Qle_bool_iff. intros H1 H2. by eapply Qle_trans.
Qed.

Lemma sort_values_sorted s : StronglySorted more_important (sort_values s).
Proof. unfold sort_values. apply (StronglySorted_merge_sort more_important). Qed.

Lemma filter_sorted_prefix t (l : list (string * Q)) :
  StronglySorted more_important l →
  ∃ k, filter (λ p : string * Q, Is_true (Qgt_bool p.2 t)) l = firstn k l
       ∧ (∀ p, p ∈ firstn k l → (t < p.2)%Q)
       ∧ (∀ p, p ∈ skipn k l → (p.2 <= t)%Q).
Proof.
  induction 1 as [|h l Hs (k & Hk & Htake & Hdrop) Hh].
  - exists 0. split; [done|]. split; intros p Hp; by apply elem_of_nil in Hp.
  - destruct (Qgt_bool h.2 t) eqn:E.
    + exists (S k). rewrite filter_cons_True by (by apply Is_true_true). simpl.
      split; [by f_equal|]. split; [|done].
      intros p [->|Hp]%elem_of_cons; [by apply Qgt_bool_true|by apply Htake].
    + exists 0. rewrite filter_cons_False by (rewrite E; exact id). simpl.
      assert (Hle : (h.2 <= t)%Q).
      { apply Qnot_lt_le. intros Hlt%Qgt_bool_true. congruence. }
      assert (Hall : ∀ p, p ∈ l → (p.2 <= t)%Q).
      { intros p Hp. apply (Qle_trans _ h.2); [|done].
        apply Qle_bool_iff, Is_true_true. by apply (proj1 (Forall_forall _ _) Hh). }
      split; [|split].
      * destruct (filter _ l) as [|p ps] eqn:F; [done|].
        assert (Hp : p ∈ filter (λ p : string * Q, Is_true (Qgt_bool p.2 t)) l)
          by (rewrite F; apply list_elem_of_here).
        apply list_elem_of_filter in Hp as [Hgt Hp].
        apply Is_true_true, Qgt_bool_true in Hgt.
        exfalso. apply (Qlt_not_le _ _ Hgt). by apply Hall.
      * intros p Hp. by apply elem_of_nil in Hp.
      * intros p [->|Hp]%elem_of_cons; [done|by apply Hall].
Qed.

(** X14.  The importances are listed from the most to the least important
    feature, and the selected features are the head of that list: the [k]
    most important features for some [k], all above the threshold, the others
    at or below it. *)
Theorem selected_features_are_the_top
    (forest : Z → frame → column → outcome (list Q)) df_encoded sel :
  selected_features forest df_encoded = Ret sel →
  ∃ fi k,
    feature_importance forest df_encoded = Ret fi
    ∧ StronglySorted more_important fi
    ∧ sel = (firstn k fi).*1
    ∧ (∀ p, p ∈ firstn k fi → (importance_threshold < p.2)%Q)
    ∧ (∀ p, p ∈ skipn k fi → (p.2 <= importance_threshold)%Q).
Proof.
  unfold selected_features. intros H. inv_bind H. injection H as <-.
  assert (Hs : StronglySorted more_important a).
  { apply feature_importance_Ret in Ha as (y & imp & _ & _ & _ & ->).
    apply sort_values_sorted. }
  destruct (filter_sorted_prefix importance_threshold a Hs) as (k & -> & H1 & H2).
  by exists a, k.
Qed.

Lemma selected_features_are_the_top_witness :
  ∃ fi k,
    feature_importance striped_importances sample_encoded = Ret fi
    ∧ StronglySorted more_important fi
    ∧ sample_selected = (firstn k fi).*1
    ∧ (∀ p, p ∈ firstn k fi → (importance_threshold < p.2)%Q)
    ∧ (∀ p, p ∈ skipn k fi → (p.2 <= importance_threshold)%Q).
Proof.
  apply selected_features_are_the_top. vm_compute. reflexivity.
Defined.

(** X15.  The feature-selected frame is made of the selected columns in the
    order of their importance, followed by the target; each of them is the
    column of that label in the encoded frame, unchanged. *)
Theorem FeatureSelector_columns
    (forest : Z → frame → column → outcome (list Q)) df_encoded df_final :
  FeatureSelector forest df_encoded = Ret df_final →
  ∃ sel,
    selected_features forest df_encoded = Ret sel
    ∧ Forall2 (λ label p, p.1 = label ∧ getcol label df_encoded = Ret p.2)
              (sel ++ ["SalePrice"]) df_final.
Proof.
  unfold FeatureSelector. intros H. inv_bind H. injection H as <-.
  exists a. split; [done|]. apply Forall2_app.
  - unfold select_columns in Ha0. apply map_out_Ret in Ha0.
    eapply Forall2_impl; [exact Ha0|]. intros l p Hp. simpl in Hp.
    inv_bind Hp. by injection Hp as <-.
  - unfold select_columns in Ha1. apply map_out_Ret in Ha1.
    eapply Forall2_impl; [exact Ha1|]. intros l p Hp. simpl in Hp.
    inv_bind Hp. by injection Hp as <-.
Qed.

Lemma FeatureSelector_columns_witness :
  ∃ sel,
    selected_features striped_importances sample_encoded = Ret sel
    ∧ Forall2 (λ label p, p.1 = label ∧ getcol label sample_encoded = Ret p.2)
              (sel ++ ["SalePrice"]) sample_final.
Proof. apply FeatureSelector_columns. vm_compute. reflexivity. Defined.

(** ** Splitting: features and target stay aligned *)

Lemma take_Ret {A} idx (vs vs' : list A) :
  take idx vs = Ret vs' → Forall2 (λ i v, vs !! i = Some v) idx vs'.
Proof.
  unfold take. intros H%map_out_Ret. eapply Forall2_impl; [exact H|].
  intros i v Hv. simpl in Hv. by destruct (vs !! i) as [w|]; [injection Hv as <-|].
Qed.

Lemma take_one {A} idx (vs vs' : list A) k i :
  take idx vs = Ret vs' → idx !! k = Some i →
  ∃ v, take [k] vs' = Ret [v] ∧ take [i] vs = Ret [v].
Proof.
  intros H%take_Ret Hk.
  destruct (Forall2_lookup_l _ _ _ _ _ H Hk) as (v & Hv & Hi).
  exists v. unfold take. simpl. by rewrite Hv, Hi.
Qed.

Lemma take_rows_from idx c c' : take_rows idx c = Ret c' → rows_from idx c c'.
Proof.
  intros H k i Hk. destruct c as [vs|vs|vs|vs]; unfold take_rows in H;
    inv_bind H; injection H as <-; unfold take_rows;
    destruct (take_one _ _ _ _ _ Ha Hk) as (v & -> & ->); eauto.
Qed.

Lemma take_rows_col_len idx c c' : take_rows idx c = Ret c' → col_len c' = length idx.
Proof.
  intros H. destruct c as [vs|vs|vs|vs]; unfold take_rows in H;
    inv_bind H; injection H as <-; simpl; by apply map_out_length in Ha.
Qed.

Lemma take_frame_rows_Ret idx df df' :
  take_frame_rows idx df = Ret df' →
  Forall2 (λ p p' : string * column, p'.1 = p.1 ∧ rows_from idx p.2 p'.2) df df'
  ∧ rows (length idx) df'.
Proof.
  unfold take_frame_rows. intros H%map_out_Ret. split.
  - eapply Forall2_impl; [exact H|]. intros p p' Hp. simpl in Hp.
    inv_bind Hp. injection Hp as <-. split; [done|]. by apply take_rows_from.
  - intros p' [i Hi]%list_elem_of_lookup_1.
    destruct (Forall2_lookup_r _ _ _ _ _ H Hi) as (p & _ & Hp). simpl in Hp.
    inv_bind Hp. injection Hp as <-. simpl. by eapply take_rows_col_len.
Qed.

(** X16.  In a split, row [k] of the training features and row [k] of the
    training target are both row [ind_train !! k] of the frame, so features
    and target stay aligned; the features are the columns of the frame
    without the target; and both have as many rows as positions were drawn.
    The same holds for the test part. *)
Theorem split_dataset_aligned df target_var d s :
  split_dataset df target_var d = Ret s →
  let features := filter (λ p : string * column, p.1 ∉ [target_var]) df in
  ∃ target,
    getcol target_var df = Ret target
    ∧ Forall2 (λ p p' : string * column,
                 p'.1 = p.1 ∧ rows_from (ind_train d) p.2 p'.2) features (X_train s)
    ∧ Forall2 (λ p p' : string * column,
                 p'.1 = p.1 ∧ rows_from (ind_test d) p.2 p'.2) features (X_test s)
    ∧ rows_from (ind_train d) target (y_train s)
    ∧ rows_from (ind_test d) target (y_test s)
    ∧ (target_var ∉ names (X_train s)) ∧ (target_var ∉ names (X_test s))
    ∧ rows (length (ind_train d)) (X_train s)
    ∧ rows (length (ind_test d)) (X_test s)
    ∧ col_len (y_train s) = length (ind_train d)
    ∧ col_len (y_test s) = length (ind_test d).
Proof.
  intros (target & Ht & H1 & H2 & H3 & H4)%split_dataset_Ret features.
  pose proof (take_frame_rows_names _ _ _ H1) as N1.
  pose proof (take_frame_rows_names _ _ _ H2) as N2.
  apply take_frame_rows_Ret in H1 as [F1 R1], H2 as [F2 R2].
  assert (Hnot : target_var ∉ names features).
  { intros [_ Hn]%names_filter_label. apply Hn, list_elem_of_here. }
  exists target. repeat split; try done.
  - by apply take_rows_from.
  - by apply take_rows_from.
  - by rewrite N1.
  - by rewrite N2.
  - by eapply take_rows_col_len.
  - by eapply take_rows_col_len.
Qed.

Lemma split_dataset_aligned_witness :
  let features := filter (λ p : string * column, p.1 ∉ ["SalePrice"]) sample_cleaned in
  ∃ target,
    getcol "SalePrice" sample_cleaned = Ret target
    ∧ Forall2 (λ p p' : string * column,
                 p'.1 = p.1 ∧ rows_from [1; 2; 3] p.2 p'.2)
              features (X_train sample_frame_split)
    ∧ Forall2 (λ p p' : string * column,
                 p'.1 = p.1 ∧ rows_from [0] p.2 p'.2)
              features (X_test sample_frame_split)
    ∧ rows_from [1; 2; 3] target (y_train sample_frame_split)
    ∧ rows_from [0] target (y_test sample_frame_split)
    ∧ ("SalePrice" ∉ names (X_train sample_frame_split))
    ∧ ("SalePrice" ∉ names (X_test sample_frame_split))
    ∧ rows 3 (X_train sample_frame_split)
    ∧ rows 1 (X_test sample_frame_split)
    ∧ col_len (y_train sample_frame_split) = 3
    ∧ col_len (y_test sample_frame_split) = 1.
Proof.
  apply (split_dataset_aligned sample_cleaned "SalePrice" sample_draw).
  vm_compute. reflexivity.
Defined.

(** ** Trainer: the tuned parameters *)

Lemma combinations_values (items : param_grid) (params : gmap string pyval) k v :
  params ∈ combinations items → params !! k = Some v →
  ∃ vs, (k, vs) ∈ items ∧ v ∈ vs.
Proof.
  revert params. induction items as [|[k0 vs0] items IH]; intros params; simpl.
  - intros ->%list_elem_of_singleton. by rewrite lookup_empty.
  - intros (v0 & (m & ->%list_elem_of_singleton & Hm)%list_elem_of_bind & Hv0)%list_elem_of_bind.
    destruct (decide (k0 = k)) as [->|Hne].
    + rewrite lookup_insert_eq. intros [= <-]. exists vs0.
      split; [apply list_elem_of_here|done].
    + rewrite lookup_insert_ne by done. intros Hk.
      destruct (IH _ Hm Hk) as (vs & Hin & Hv). exists vs.
      split; [by apply list_elem_of_further|done].
Qed.

Lemma foldl_best {A} (score : A → Q) (c : A) (cs : list A) :
  let best := foldl (λ best c', if Qgt_bool (score c') (score best) then c' else best)
                    c cs in
  ∀ c', c' ∈ c :: cs → (score c' <= score best)%Q.
Proof.
  simpl. revert c. induction cs as [|c1 cs IH]; intros c c' Hc'; simpl.
  - apply list_elem_of_singleton in Hc' as ->. apply Qle_refl.
  - destruct (Qgt_bool (score c1) (score c)) eqn:E.
    + apply elem_of_cons in Hc' as [->|Hc'].
      * apply (Qle_trans _ (score c1)).
        -- apply Qlt_le_weak. by apply Qgt_bool_true.
        -- apply IH, list_elem_of_here.
      * by apply IH.
    + apply elem_of_cons in Hc' as [->|[->|Hc']%elem_of_cons].
      * apply IH, list_elem_of_here.
      * apply (Qle_trans _ (score c)).
        -- apply Qnot_lt_le. intros Hlt%Qgt_bool_true. congruence.
        -- apply IH, list_elem_of_here.
      * by apply IH, list_elem_of_further.
Qed.

(** X17.  The parameters that a grid search returns give to every key one of
    the values written for that key in the grid, and no candidate of the grid
    has a higher mean score. *)
Theorem best_params_spec
    (score : grid_search → estimator → frame → column → Q) gs X y params :
  best_params_ score gs X y = Ret params →
  (∀ k v, params !! k = Some v → ∃ vs, (k, vs) ∈ gs_param_grid gs ∧ v ∈ vs)
  ∧ (∀ c, c ∈ ParameterGrid (gs_param_grid gs) →
          (score gs (set_params (gs_estimator gs) c) X y
           <= score gs (set_params (gs_estimator gs) params) X y)%Q).
Proof.
  intros H. split.
  - intros k v Hk. apply best_params_in_grid in H. unfold ParameterGrid in H.
    destruct (combinations_values _ _ _ _ H Hk) as (vs & Hin & Hv).
    exists vs. split; [|done]. by rewrite merge_sort_Permutation in Hin.
  - apply best_params_Ret in H as (_ & c0 & cs & -> & ->). intros c Hc.
    by apply (foldl_best (λ p, score gs (set_params (gs_estimator gs) p) X y)).
Qed.

Lemma best_params_spec_witness :
  let gs := GridSearchCV estimator_lr param_grid_lr 5 None in
  let X := X_train sample_split in
  let y := y_train sample_split in
  (∀ k v, ({[ "C" := PInt 1000 ]} : gmap string pyval) !! k = Some v →
          ∃ vs, (k, vs) ∈ param_grid_lr ∧ v ∈ vs)
  ∧ (∀ c, c ∈ ParameterGrid param_grid_lr →
          (score_by_C gs (set_params estimator_lr c) X y
           <= score_by_C gs (set_params estimator_lr {[ "C" := PInt 1000 ]}) X y)%Q).
Proof.
  apply (best_params_spec score_by_C (GridSearchCV estimator_lr param_grid_lr 5 None)
           (X_train sample_split) (y_train sample_split)).
  vm_compute. reflexivity.
Defined.

(** ** Trainer: the categorical features *)

Lemma categorical_features_indices_elem X i :
  i ∈ categorical_features_indices X ↔
  ∃ p, X !! i = Some p ∧ is_number p.2 = false.
Proof.
  unfold categorical_features_indices. rewrite list_elem_of_fmap. split.
  - intros ([j p] & -> & [Hp Hin]%list_elem_of_filter). simpl in *.
    apply elem_of_lookup_imap in Hin as (j' & p' & [= <- <-] & Hj).
    exists p. split; [done|].
    destruct (is_number p.2); [exfalso; by apply Hp|done].
  - intros (p & Hi & Hp). exists (i, p). split; [done|].
    apply list_elem_of_filter. split; [simpl; rewrite Hp; exact id|].
    apply elem_of_lookup_imap. by exists i, p.
Qed.

(** X18.  The final categorical-aware model is given as [cat_features] the
    positions of exactly those columns of its training frame that are not of
    dtype float64 or int64. *)
Theorem train_cat_cat_features
    (score : grid_search → estimator → frame → column → Q) s m :
  train_cat score s = Ret m →
  ∃ indices,
    est_kwargs (fit_estimator m) !! "cat_features" = Some (PIndices indices)
    ∧ ∀ i, i ∈ indices ↔ ∃ p, fit_X m !! i = Some p ∧ is_number p.2 = false.
Proof.
  intros (params & _ & _ & ->)%train_cat_Ret.
  exists (categorical_features_indices (X_train s)). split.
  - apply lookup_insert_eq.
  - apply categorical_features_indices_elem.
Qed.

Lemma train_cat_cat_features_witness :
  ∃ m indices,
    train_cat flat_score sample_split_01 = Ret m
    ∧ est_kwargs (fit_estimator m) !! "cat_features" = Some (PIndices indices)
    ∧ ∀ i, i ∈ indices ↔ ∃ p, fit_X m !! i = Some p ∧ is_number p.2 = false.
Proof.
  eexists.
  assert (H : train_cat flat_score sample_split_01 = Ret _) by (vm_compute; reflexivity).
  destruct (train_cat_cat_features flat_score sample_split_01 _ H) as (indices & H1 & H2).
  exists indices. split; [exact H|]. split; [exact H1|exact H2].
Defined.

(** ** Encoder: it works on a cleaned frame of the expected schema *)

Lemma map_out_total {A B} (f : A → outcome B) xs :
  Forall (λ x, ∃ y, f x = Ret y) xs → ∃ ys, map_out f xs = Ret ys.
Proof.
  induction 1 as [|x xs [y Hy] _ [ys Hys]]; simpl; [eauto|].
  rewrite Hy. simpl. rewrite Hys. simpl. eauto.
Qed.

Lemma category_code_total cats v : v ∈ cats → ∃ i, category_code cats v = Ret i.
Proof.
  intros Hv. unfold category_code.
  destruct (list_find_elem_of (λ c, c = v) cats v Hv eq_refl) as [[i w] ->]. eauto.
Qed.

Lemma complete_cells {A} (vs : list (option A)) :
  existsb id (is_none <$> vs) = false → Forall is_Some vs.
Proof.
  induction vs as [|[v|] vs IH]; simpl; [constructor| |discriminate].
  intros H. constructor; [eauto|by apply IH].
Qed.

Lemma ord_enc_total vs :
  vs ≠ [] → complete (ObjCol vs) →
  ∃ c', ord_enc_fit_transform (ObjCol vs) = Ret c' ∧ castable c'.
Proof.
  intros Hne Hc. unfold ord_enc_fit_transform.
  destruct vs as [|o0 vs0]; [done|]. set (vs := o0 :: vs0) in *.
  apply complete_cells in Hc.
  destruct (map_out_total (λ o : option string,
               match o with
               | None => Ret None
               | Some v => i ← category_code (levels vs) v;
                           Ret (Some (inject_Z (Z.of_nat i)))
               end) vs) as [codes Hcodes].
  { apply Forall_forall. intros o Ho.
    destruct (proj1 (Forall_forall _ _) Hc o Ho) as [v ->].
    destruct (category_code_total (levels vs) v) as [i Hi]; [by apply levels_elem|].
    rewrite Hi. simpl. eauto. }
  rewrite Hcodes. simpl. eexists. split; [reflexivity|].
  unfold complete, isnull_any. simpl.
  apply not_true_iff_false. intros (b & Hb & Hid)%existsb_exists.
  apply list_elem_of_In, list_elem_of_fmap in Hb as (code & -> & Hcode).
  apply list_elem_of_lookup_1 in Hcode as [k Hk].
  apply map_out_Ret in Hcodes.
  destruct (Forall2_lookup_r _ _ _ _ _ Hcodes Hk) as (o & Ho & Hf).
  apply list_elem_of_lookup_2 in Ho.
  destruct (proj1 (Forall_forall _ _) Hc o Ho) as [v ->].
  simpl in Hf. inv_bind Hf. by injection Hf as <-.
Qed.

Lemma bin_enc_total vs :
  complete (ObjCol vs) → ∃ codes, bin_enc_fit_transform (ObjCol vs) = Ret (IntCol codes).
Proof.
  intros Hc%complete_cells. unfold bin_enc_fit_transform.
  destruct (map_out_total (λ o : option string,
               match o with
               | None => Ret (Z.of_nat (length (levels vs)))
               | Some v => i ← category_code (levels vs) v; Ret (Z.of_nat i)
               end) vs) as [codes ->]; [|simpl; eauto].
  apply Forall_forall. intros o Ho.
  destruct (proj1 (Forall_forall _ _) Hc o Ho) as [v ->].
  destruct (category_code_total (levels vs) v) as [i ->]; [by apply levels_elem|].
  simpl. eauto.
Qed.

Lemma astype_int_column_total c : castable c → ∃ c', astype_int_column c = Ret c'.
Proof.
  destruct c as [vs|vs|vs|vs]; simpl; [done| |eauto..].
  intros Hc%complete_cells.
  destruct (map_out_total (λ o : option Q,
               match o with
               | Some q => Ret (truncate q)
               | None => Raise ValueError
               end) vs) as [zs ->]; [|simpl; eauto].
  eapply Forall_impl; [exact Hc|]. intros o [q ->]. eauto.
Qed.

Lemma setcol_elem_other label c df p :
  p ∈ setcol label c df → (p ∈ df ∧ p.1 ≠ label) ∨ p = (label, c).
Proof.
  unfold setcol. case_decide as Hin.
  - intros (q & -> & Hq)%list_elem_of_fmap. case_decide; auto.
  - intros [Hp| ->%list_elem_of_singleton]%elem_of_app; [|auto].
    left. split; [done|]. intros <-. apply Hin. destruct p. by eapply elem_names.
Qed.

(** X19.  On a frame with distinct labels, at least one row and no missing
    cell, in which the columns of the three groups are object columns and no
    other column is, the Encoder yields a frame: no exception. *)
Theorem Encoder_runs df n :
  NoDup (names df) → no_missing df → rows n df → 0 < n →
  (∀ label, label ∈ ord_enc_cols ++ one_hot_enc_cols ++ bin_enc_cols →
            ∃ vs, (label, ObjCol vs) ∈ df) →
  (∀ label vs, (label, ObjCol vs) ∈ df →
               label ∈ ord_enc_cols ++ one_hot_enc_cols ++ bin_enc_cols) →
  ∃ encoded, Encoder df = Ret encoded.
Proof.
  intros Hnd Hcomplete Hrows Hn Hlisted Hothers. unfold Encoder.
  (* the ordinal loop *)
  destruct (for_each_update_total ord_enc_fit_transform ord_enc_cols df Hnd
              ord_enc_cols_NoDup) as [df1 H1].
  { intros l Hl. destruct (Hlisted l) as [vs Hin]; [apply elem_of_app; by left|].
    destruct (ord_enc_total vs) as (c' & Hc' & _).
    - intros ->. specialize (Hrows _ Hin). simpl in Hrows. lia.
    - by apply (Hcomplete (l, ObjCol vs)).
    - by exists (ObjCol vs), c'. }
  rewrite H1. simpl.
  pose proof (for_each_update_spec _ _ _ _ Hnd ord_enc_cols_NoDup H1) as S1.
  pose proof (for_each_update_names _ _ _ _ H1) as N1.
  assert (Hnd1 : NoDup (names df1)) by (by rewrite N1).
  (* a column of [df1] is castable, or one of the one-hot or label-encoded
     object columns of [df] *)
  assert (Hdf1 : ∀ p, p ∈ df1 →
            castable p.2 ∨ (p ∈ df ∧ p.1 ∈ one_hot_enc_cols ++ bin_enc_cols)).
  { intros p1 [i Hi]%list_elem_of_lookup_1.
    destruct (Forall2_lookup_r _ _ _ _ _ S1 Hi) as ([l c] & Hi0 & E1 & E2).
    apply list_elem_of_lookup_2 in Hi0.
    destruct p1 as [l1 c1]. simpl in E1, E2. subst l1. simpl. case_decide as Hord.
    - left. destruct (Hlisted l) as [vs Hin]; [apply elem_of_app; by left|].
      rewrite (NoDup_names_inj _ _ _ _ Hnd Hi0 Hin) in E2.
      destruct (ord_enc_total vs) as (c' & Hc' & Hcast).
      + intros ->. specialize (Hrows _ Hin). simpl in Hrows. lia.
      + by apply (Hcomplete (l, ObjCol vs)).
      + rewrite Hc' in E2. by injection E2 as <-.
    - subst c1. destruct c as [vs|vs|vs|vs]; simpl; auto.
      + right. split; [done|].
        apply Hothers in Hi0. apply elem_of_app in Hi0 as [?|?]; done.
      + left. by apply (Hcomplete (l, FloatCol vs)). }
  (* get_dummies *)
  assert (Hin1 : ∀ l, l ∈ one_hot_enc_cols ++ bin_enc_cols →
                      ∃ vs, (l, ObjCol vs) ∈ df ∧ (l, ObjCol vs) ∈ df1).
  { intros l Hl. destruct (Hlisted l) as [vs Hin]; [apply elem_of_app; by right|].
    exists vs. split; [done|]. eapply for_each_update_elem; [exact H1|done|].
    intros Hord. by apply (proj1 enc_cols_disjoint l Hord). }
  destruct (map_out_total (λ label,
              c ← getcol label df1;
              match c with
              | ObjCol vs => Ret (dummy_columns label vs)
              | _ => Outside
              end) one_hot_enc_cols) as [blocks Hblocks].
  { apply Forall_forall. intros l Hl.
    destruct (Hin1 l) as (vs & _ & Hin); [apply elem_of_app; by left|].
    rewrite (getcol_NoDup _ _ _ Hnd1 Hin). simpl. eauto. }
  unfold get_dummies. rewrite Hblocks. simpl.
  assert (Hdrop : drop_columns one_hot_enc_cols df1
                  = Ret (filter (λ p : string * column, p.1 ∉ one_hot_enc_cols) df1)).
  { apply drop_columns_Ret. split; [|done]. intros l Hl.
    destruct (Hin1 l) as (vs & _ & Hin); [apply elem_of_app; by left|].
    by eapply elem_names. }
  rewrite Hdrop. simpl.
  set (rest := filter (λ p : string * column, p.1 ∉ one_hot_enc_cols) df1).
  (* the indicator columns are boolean and none is called like a column of
     the label group *)
  apply map_out_Ret in Hblocks.
  assert (Hdummy : ∀ p, p ∈ concat blocks →
            (∃ bs, p.2 = BoolCol bs) ∧ p.1 ∉ bin_enc_cols).
  { intros p Hp. apply list_elem_of_In, in_concat in Hp as (block & Hblock & Hp).
    apply list_elem_of_In in Hblock, Hp.
    apply list_elem_of_lookup_1 in Hblock as [k Hk].
    destruct (Forall2_lookup_r _ _ _ _ _ Hblocks Hk) as (l & Hlk & Hb).
    simpl in Hb. inv_bind Hb. destruct a as [vs| | |]; try discriminate.
    injection Hb as <-. apply list_elem_of_fmap in Hp as (cat & -> & _). simpl.
    split; [eauto|]. apply (dummy_name_fresh bin_enc_cols one_hot_enc_cols).
    - vm_compute. reflexivity.
    - by eapply list_elem_of_lookup_2. }
  (* the label encoding of [CentralAir] *)
  destruct (Hin1 "CentralAir") as (vs & Hin & Hin1'); [by vm_compute; repeat constructor|].
  assert (Hget : getcol "CentralAir" (rest ++ concat blocks) = Ret (ObjCol vs)).
  { unfold getcol. rewrite filter_app.
    rewrite (filter_label_NoDup "CentralAir" (ObjCol vs) rest).
    - rewrite (filter_label_absent "CentralAir" (concat blocks)); [done|].
      intros [c Hc]%names_elem. apply (Hdummy _ Hc). simpl. apply list_elem_of_here.
    - by apply filter_names_NoDup.
    - apply list_elem_of_filter. split; [|done].
      simpl. apply (bool_decide_unpack _). vm_compute. exact I. }
  destruct (bin_enc_total vs) as [codes Hcodes].
  { by apply (Hcomplete ("CentralAir", ObjCol vs)). }
  rewrite (update_column_intro _ _ _ _ _ Hget Hcodes). simpl.
  (* the cast *)
  apply map_out_total, Forall_forall. intros p Hp.
  destruct (astype_int_column_total p.2) as [c' ->]; [|simpl; eauto].
  apply setcol_elem_other in Hp as [[Hp Hne]| ->]; [|done].
  apply elem_of_app in Hp as [[Hhot Hp]%list_elem_of_filter|Hp].
  - destruct (Hdf1 _ Hp) as [?|[_ [?|Hbin]%elem_of_app]]; [done|done|].
    apply list_elem_of_singleton in Hbin. done.
  - destruct (Hdummy _ Hp) as [[bs ->] _]. done.
Qed.

Lemma sample_cleaned_NoDup : NoDup (names sample_cleaned).
Proof. apply (bool_decide_unpack _). vm_compute. exact I. Qed.

Lemma Encoder_runs_witness : ∃ encoded, Encoder sample_cleaned = Ret encoded.
Proof.
  apply (Encoder_runs sample_cleaned 4).
  - exact sample_cleaned_NoDup.
  - apply no_missing_Forall, (bool_decide_unpack _). vm_compute. exact I.
  - apply rows_Forall, (bool_decide_unpack _). vm_compute. exact I.
  - lia.
  - apply Forall_forall.
    repeat (apply Forall_cons; split;
            [eexists; apply list_elem_of_In; vm_compute; tauto|]).
    apply Forall_nil_2.
  - intros label vs Hin. apply list_elem_of_In in Hin. apply list_elem_of_In.
    vm_compute in Hin. vm_compute.
    repeat (destruct Hin as [Hin|Hin]; [try discriminate Hin; injection Hin as <- _; tauto|]).
    destruct Hin.
Defined.
